(** * Biblical text preprocessing: a shallow embedding of
      [BiblicalTextPreprocessor] (src/preprocessing1.py)

    The development follows the Python class method by method:

    - text, the character classes used by [re] and the [re.sub] scan;
    - [normalize_text], [clean_bible_text], [clean_commentary_text];
    - the markup, JSON and plain-text parsers;
    - [create_verse_aligned_dataset].

    A Python [str] is a list of code points.  What the interpreter takes from
    the Unicode character database for code points above U+007F (NFKC, the
    decimal digits, the alphanumerics) is a parameter, the record [Unicode];
    on ASCII every function below computes.  The parsers start from what the
    libraries hand over: the tree [BeautifulSoup] builds, the value
    [json.loads] returns.  Reading and writing files and the tabular parser
    (which is [pandas.read_csv]) are left out.

    The first part holds the program and the vocabulary of the statements,
    the second part the properties. *)

From Stdlib Require Import Ascii String DecimalString List NArith ZArith Bool Lia.
Import ListNotations.

(** ** Text *)

Definition char := N.
Definition text := list char.

(** An ASCII literal as a text. *)
Definition txt (s : string) : text := map N_of_ascii (list_ascii_of_string s).
Arguments txt s%_string.

Definition text_eq_dec : forall a b : text, {a = b} + {a <> b} :=
  list_eq_dec N.eq_dec.

Definition text_eqb (a b : text) : bool :=
  if text_eq_dec a b then true else false.

(** The part of the Unicode character database the program reaches through
    [unicodedata] and [re], for the code points that are not ASCII. *)
Record Unicode := {
  unfkc : text -> text;          (* unicodedata.normalize('NFKC', s) *)
  udecimal : char -> option Z;   (* value of a decimal digit (category Nd) *)
  uword : char -> bool           (* str.isalnum *)
}.

(** The database cut down to ASCII, for closed examples on ASCII texts. *)
Definition ascii_only : Unicode :=
  {| unfkc := fun s => s; udecimal := fun _ => None; uword := fun _ => false |}.

Definition in_range (lo hi c : N) : bool := (lo <=? c)%N && (c <=? hi)%N.

Definition is_ascii (c : char) : bool := (c <? 128)%N.

(** [\s] on str patterns, which is [str.isspace]: a fixed set. *)
Definition is_space (c : char) : bool :=
  in_range 9 13 c || in_range 28 32 c || (c =? 133)%N || (c =? 160)%N
  || (c =? 5760)%N || in_range 8192 8202 c || (c =? 8232)%N || (c =? 8233)%N
  || (c =? 8239)%N || (c =? 8287)%N || (c =? 12288)%N.

Definition is_ascii_letter (c : char) : bool :=
  in_range 65 90 c || in_range 97 122 c.

(** Folding used by [re.IGNORECASE] for the letters of the protected terms:
    the ASCII capitals, and U+017F (long s), which the [re] module matches
    against [s]. *)
Definition casefold (c : char) : char :=
  if in_range 65 90 c then (c + 32)%N
  else if (c =? 383)%N then 115%N else c.

Section Classes.
Variable U : Unicode.

Definition nfkc (s : text) : text :=
  if forallb is_ascii s then s else unfkc U s.

(** [\d] *)
Definition is_digit (c : char) : bool :=
  if is_ascii c then in_range 48 57 c
  else match udecimal U c with Some _ => true | None => false end.

Definition digit_val (c : char) : Z :=
  if is_ascii c then Z.of_N c - 48
  else match udecimal U c with Some v => v | None => 0 end.

(** [\w] *)
Definition is_word (c : char) : bool :=
  if is_ascii c then is_ascii_letter c || in_range 48 57 c || (c =? 95)%N
  else (c =? 383)%N || is_digit c || uword U c.

Definition word_opt (o : option char) : bool :=
  match o with Some c => is_word c | None => false end.
End Classes.

(** ** Scanning helpers *)

Fixpoint take_while (p : char -> bool) (s : text) : text :=
  match s with
  | c :: s' => if p c then c :: take_while p s' else []
  | [] => []
  end.

Fixpoint drop_while (p : char -> bool) (s : text) : text :=
  match s with
  | c :: s' => if p c then drop_while p s' else s
  | [] => []
  end.

Definition lstrip (s : text) : text := drop_while is_space s.

Fixpoint rstrip (s : text) : text :=
  match s with
  | [] => []
  | c :: s' =>
      match rstrip s' with
      | [] => if is_space c then [] else [c]
      | r => c :: r
      end
  end.

(** [str.strip()] *)
Definition strip (s : text) : text := rstrip (lstrip s).

(** The whitespace [int()] skips around a literal: that of [str.isspace]
    without the four separators U+001C to U+001F. *)
Definition is_int_space (c : char) : bool :=
  is_space c && negb (in_range 28 31 c).

Fixpoint rstrip_by (p : char -> bool) (s : text) : text :=
  match s with
  | [] => []
  | c :: s' =>
      match rstrip_by p s' with
      | [] => if p c then [] else [c]
      | r => c :: r
      end
  end.

Definition int_strip (s : text) : text :=
  rstrip_by is_int_space (drop_while is_int_space s).

(** ** [re.sub]

    A compiled pattern is its matcher at one position of the scan: given the
    character before the position (for [\b]) and the text from the position
    on, the leftmost match the backtracking engine finds starting there, as
    the number of characters it consumes after the first one and the text of
    its groups.  No pattern of the program matches the empty string. *)

Record rmatch := { more : nat; groups : list text }.

Definition regex := option char -> text -> option rmatch.

(** The replacement, as a function of the groups of the match. *)
Definition template := list text -> text.

Definition lit (r : text) : template := fun _ => r.
Definition group (n : nat) (g : list text) : text := nth (n - 1) g [].

(** The scan of [pattern.sub(repl, s)]: left to right, each match replaced
    and skipped, every other character copied.  [skip] counts the characters
    of the current match still to be passed over. *)
Fixpoint sub_from (re : regex) (repl : template) (skip : nat)
    (prev : option char) (s : text) : text :=
  match s with
  | [] => []
  | c :: s' =>
      match skip with
      | S k => sub_from re repl k (Some c) s'
      | O =>
          match re prev s with
          | Some m => repl (groups m) ++ sub_from re repl (more m) (Some c) s'
          | None => c :: sub_from re repl 0 (Some c) s'
          end
      end
  end.

Definition re_sub (re : regex) (repl : template) (s : text) : text :=
  sub_from re repl 0 None s.

(** A pattern that is one character of a class. *)
Definition one_of (p : char -> bool) : regex :=
  fun _ s =>
    match s with
    | c :: _ => if p c then Some {| more := 0; groups := [] |} else None
    | [] => None
    end.

(** [\s+] *)
Definition re_whitespace : regex :=
  fun _ s =>
    match s with
    | c :: s' =>
        if is_space c
        then Some {| more := length (take_while is_space s'); groups := [] |}
        else None
    | [] => None
    end.

(** Modelled from the spec: the two quote classes.  The source file prints
    both classes with straight quotes only, and in that form the second one,
    [r'[''']'], is not a Python expression; the spec gives what they hold:
    "quote-character standardization (curly double/single quotes ->
    straight)".  U+201C, U+201D and the straight double quote. *)
Definition is_double_quote (c : char) : bool :=
  (c =? 8220)%N || (c =? 8221)%N || (c =? 34)%N.

(** Modelled from the spec: U+2018, U+2019 and the apostrophe (see above). *)
Definition is_single_quote (c : char) : bool :=
  (c =? 8216)%N || (c =? 8217)%N || (c =? 39)%N.

(** dagger, double dagger, asterisk, hash, pilcrow *)
Definition is_footnote_marker (c : char) : bool :=
  (c =? 8224)%N || (c =? 8225)%N || (c =? 42)%N || (c =? 35)%N || (c =? 182)%N.

(** Characters up to the first [']'], when no newline comes before it: what
    the lazy [.*?] of [\[.*?\]] takes. *)
Fixpoint lazy_to_close (s : text) : option nat :=
  match s with
  | [] => None
  | c :: s' =>
      if (c =? 93)%N then Some 0
      else if (c =? 10)%N then None
      else match lazy_to_close s' with Some n => Some (S n) | None => None end
  end.

(** [\[.*?\]] *)
Definition re_bracket : regex :=
  fun _ s =>
    match s with
    | c :: s' =>
        if (c =? 91)%N
        then match lazy_to_close s' with
             | Some n => Some {| more := S n; groups := [] |}
             | None => None
             end
        else None
    | [] => None
    end.

Definition is_verse_sep (c : char) : bool := (c =? 58)%N || (c =? 46)%N.

(** [, . ; : ? !] *)
Definition is_punct (c : char) : bool :=
  (c =? 44)%N || (c =? 46)%N || (c =? 59)%N || (c =? 58)%N || (c =? 63)%N
  || (c =? 33)%N.

Section Cleaning.
Variable U : Unicode.

(** [(\d+)[:\.](\d+)]: both runs of digits are greedy, and giving a digit
    back never helps, the next character being a digit then. *)
Definition re_verse : regex :=
  fun _ s =>
    let n := take_while (is_digit U) s in
    match n, drop_while (is_digit U) s with
    | _ :: _, sep :: s' =>
        let m := take_while (is_digit U) s' in
        match m with
        | _ :: _ =>
            if is_verse_sep sep
            then Some {| more := length n + length m; groups := [n; m] |}
            else None
        | [] => None
        end
    | _, _ => None
    end.

(** [\s+([,.;:?!])] *)
Definition re_space_punct : regex :=
  fun _ s =>
    match s with
    | c :: s' =>
        if is_space c
        then match drop_while is_space s' with
             | p :: _ =>
                 if is_punct p
                 then Some {| more := S (length (take_while is_space s'));
                              groups := [[p]] |}
                 else None
             | [] => None
             end
        else None
    | [] => None
    end.

(** [self.cleanup_patterns] *)
Definition cleanup_patterns : list (regex * text) :=
  [ (re_whitespace, txt " ");
    (one_of is_double_quote, [34%N]);
    (one_of is_single_quote, [39%N]);
    (one_of is_footnote_marker, []);
    (re_bracket, []) ].

Definition normalize_text (t : text) : text :=
  let t := nfkc U t in
  let t := fold_left (fun t pr => re_sub (fst pr) (lit (snd pr)) t)
                     cleanup_patterns t in
  strip t.

(** The template [r'[\1:\2] '] *)
Definition verse_token : template :=
  fun g => txt "[" ++ group 1 g ++ txt ":" ++ group 2 g ++ txt "] ".

Definition clean_bible_text (t : text) : text :=
  let t := normalize_text t in
  let t := re_sub re_verse verse_token t in
  let t := re_sub re_space_punct (group 1) t in
  t.

(** Case-insensitive literal prefix. *)
Fixpoint ci_prefix (term s : text) : bool :=
  match term, s with
  | [], _ => true
  | p :: term', c :: s' =>
      (casefold c =? casefold p)%N && ci_prefix term' s'
  | _ :: _, [] => false
  end.

(** [\b]: exactly one of the two neighbours is a word character. *)
Definition boundary (before after : option char) : bool :=
  xorb (word_opt U before) (word_opt U after).

(** [\bTERM\b] under [re.IGNORECASE] *)
Definition re_term (term : text) : regex :=
  fun prev s =>
    match term with
    | [] => None
    | _ :: term' =>
        if boundary prev (hd_error s) && ci_prefix term s
           && boundary (Some (last (firstn (length term) s) 0%N))
                       (hd_error (skipn (length term) s))
        then Some {| more := length term'; groups := [] |}
        else None
    end.

Definition theological_terms : list (text * text) :=
  [ (txt "YHWH", txt "YHWH");
    (txt "JHVH", txt "JHVH");
    (txt "LORD", txt "LORD");
    (txt "Son of Man", txt "Son of Man") ].

Definition clean_commentary_text (t : text) : text :=
  let t := normalize_text t in
  fold_left (fun t tr => re_sub (re_term (fst tr)) (lit (snd tr)) t)
            theological_terms t.
End Cleaning.

(** ** Exceptions

    A method that can raise returns a [result]; the handlers of the source
    are the only places where a [Raise] turns back into a value. *)

Inductive exn := TypeError | ValueError | KeyError | AttributeError.

Inductive result (A : Type) : Type :=
| Ok (a : A)
| Raise (e : exn).
Arguments Ok {A} a.
Arguments Raise {A} e.

Definition bind {A B} (r : result A) (k : A -> result B) : result B :=
  match r with
  | Ok a => k a
  | Raise e => Raise e
  end.

Notation "x <- r ;; k" := (bind r (fun x => k))
  (at level 61, r at next level, right associativity).
Notation "' p <- r ;; k" := (bind r (fun p => k))
  (at level 61, p pattern, r at next level, right associativity).

(** [for x in xs: st = body(st, x)], the first exception ending the loop. *)
Fixpoint for_each {A S} (xs : list A) (body : S -> A -> result S) (st : S)
  : result S :=
  match xs with
  | [] => Ok st
  | x :: xs' => st' <- body st x ;; for_each xs' body st'
  end.

(** ** Dictionaries

    A [dict] keeps its items in insertion order; assigning to a key that is
    present replaces the value where it stands. *)

Section Dict.
Variables K V : Type.
Variable K_dec : forall a b : K, {a = b} + {a <> b}.

Definition dict := list (K * V).

Fixpoint dict_get (d : dict) (k : K) : option V :=
  match d with
  | [] => None
  | (k', v) :: d' => if K_dec k' k then Some v else dict_get d' k
  end.

Fixpoint dict_set (d : dict) (k : K) (v : V) : dict :=
  match d with
  | [] => [(k, v)]
  | (k', v') :: d' =>
      if K_dec k' k then (k', v) :: d' else (k', v') :: dict_set d' k v
  end.

Definition dict_has (d : dict) (k : K) : bool :=
  match dict_get d k with Some _ => true | None => false end.

(** [d.get(k, default)] *)
Definition dict_get_or (d : dict) (k : K) (default : V) : V :=
  match dict_get d k with Some v => v | None => default end.
End Dict.

Arguments dict_get {K V} K_dec d k.
Arguments dict_set {K V} K_dec d k v.
Arguments dict_has {K V} K_dec d k.
Arguments dict_get_or {K V} K_dec d k default.

(** ** Values

    What [json.loads] returns and what a commentary record ([Dict[str, Any]])
    holds.  JSON numbers with a fraction or an exponent, which become
    [float], are outside the model. *)

#[warnings="-register-all"]
Inductive pyval :=
| VNone
| VBool (b : bool)
| VInt (z : Z)
| VStr (s : text)
| VList (l : list pyval)
| VDict (d : list (text * pyval)).

(** A hashable value as a dictionary key: [True] and [1] are one key. *)
Inductive hkey := HNone | HInt (z : Z) | HStr (s : text).

Definition hkey_dec : forall a b : hkey, {a = b} + {a <> b}.
Proof. decide equality; [apply Z.eq_dec | apply text_eq_dec]. Defined.

(** [hash(v)] *)
Definition py_hash (v : pyval) : result hkey :=
  match v with
  | VNone => Ok HNone
  | VBool b => Ok (HInt (Z.b2z b))
  | VInt z => Ok (HInt z)
  | VStr s => Ok (HStr s)
  | VList _ | VDict _ => Raise TypeError
  end.

Fixpoint is_prefix (a s : text) : bool :=
  match a, s with
  | [], _ => true
  | x :: a', y :: s' => (x =? y)%N && is_prefix a' s'
  | _ :: _, [] => false
  end.

Fixpoint is_substring (a s : text) : bool :=
  is_prefix a s || match s with [] => false | _ :: s' => is_substring a s' end.

Definition is_vstr (a : text) (v : pyval) : bool :=
  match v with VStr s => text_eqb s a | _ => false end.

(** [key in v], for a [str] key *)
Definition py_contains (key : text) (v : pyval) : result bool :=
  match v with
  | VDict d => Ok (dict_has text_eq_dec d key)
  | VList l => Ok (existsb (is_vstr key) l)
  | VStr s => Ok (is_substring key s)
  | VNone | VBool _ | VInt _ => Raise TypeError
  end.

(** [v[key]], for a [str] key *)
Definition py_getitem (v : pyval) (key : text) : result pyval :=
  match v with
  | VDict d =>
      match dict_get text_eq_dec d key with
      | Some x => Ok x
      | None => Raise KeyError
      end
  | _ => Raise TypeError
  end.

(** [v[key] = x], for a [str] key *)
Definition py_setitem (v : pyval) (key : text) (x : pyval)
  : result (list (text * pyval)) :=
  match v with
  | VDict d => Ok (dict_set text_eq_dec d key x)
  | _ => Raise TypeError
  end.

(** [for x in v] *)
Definition py_iter (v : pyval) : result (list pyval) :=
  match v with
  | VList l => Ok l
  | VDict d => Ok (map (fun kv => VStr (fst kv)) d)
  | VStr s => Ok (map (fun c => VStr [c]) s)
  | VNone | VBool _ | VInt _ => Raise TypeError
  end.

(** [v.items()] *)
Definition py_items (v : pyval) : result (list (text * pyval)) :=
  match v with
  | VDict d => Ok d
  | _ => Raise AttributeError
  end.

Section Int.
Variable U : Unicode.

(** The value of a run of decimal digits. *)
Definition digits_value (s : text) : Z :=
  fold_left (fun acc c => 10 * acc + digit_val U c)%Z s 0%Z.

(** Digits, single underscores allowed between them. *)
Fixpoint int_literal (s : text) : bool :=
  match s with
  | [] => true
  | c :: s' =>
      if is_digit U c then int_literal s'
      else if (c =? 95)%N
           then match s' with
                | d :: _ => is_digit U d && int_literal s'
                | [] => false
                end
           else false
  end.

(** [sys.int_info.default_max_str_digits]: [int()] raises [ValueError] on
    a literal with more digits. *)
Definition int_max_str_digits : N := 4300.

Definition int_unsigned (s : text) : result Z :=
  match s with
  | c :: _ =>
      let digits := filter (is_digit U) s in
      if is_digit U c && int_literal s
         && (N.of_nat (length digits) <=? int_max_str_digits)%N
      then Ok (digits_value digits)
      else Raise ValueError
  | [] => Raise ValueError
  end.

(** [int(s)] for a [str]. *)
Definition int_of_text (s : text) : result Z :=
  match int_strip s with
  | c :: s' =>
      if (c =? 45)%N then z <- int_unsigned s' ;; Ok (- z)%Z
      else if (c =? 43)%N then int_unsigned s'
      else int_unsigned (c :: s')
  | [] => Raise ValueError
  end.

(** [int(v)] *)
Definition py_int (v : pyval) : result Z :=
  match v with
  | VInt z => Ok z
  | VBool b => Ok (Z.b2z b)
  | VStr s => int_of_text s
  | VNone | VList _ | VDict _ => Raise TypeError
  end.

(** [int(x)] where [x] is an attribute value or [None] *)
Definition int_of_attr (a : option text) : result Z :=
  match a with
  | Some s => int_of_text s
  | None => Raise TypeError
  end.

(** [self.clean_bible_text(v)]: [unicodedata.normalize] accepts a [str]
    only. *)
Definition clean_bible_value (v : pyval) : result text :=
  match v with
  | VStr s => Ok (clean_bible_text U s)
  | _ => Raise TypeError
  end.

Definition clean_commentary_value (v : pyval) : result text :=
  match v with
  | VStr s => Ok (clean_commentary_text U s)
  | _ => Raise TypeError
  end.
End Int.

(** [str(z)] *)
Definition str_of_int (z : Z) : text := txt (NilZero.string_of_int (Z.to_int z)).

(** ** Scripture corpora: [{book: {chapter: {verse: text}}}] *)

Definition chapter_t := dict Z text.
Definition book_t := dict Z chapter_t.
Definition corpus (B : Type) := dict B book_t.

(** ** Markup documents

    What [BeautifulSoup(content, 'xml')] hands to the program: a tree of tags
    with attributes and of strings. *)

#[warnings="-register-all"]
Inductive node :=
| Tag (name : text) (attrs : list (text * text)) (children : list node)
| NavigableString (s : text).

Definition soup := list node.

(** Everything below a node, in document order. *)
Fixpoint descendants (n : node) : list node :=
  match n with
  | Tag _ _ cs =>
      (fix below (l : list node) : list node :=
         match l with
         | [] => []
         | c :: l' => c :: descendants c ++ below l'
         end) cs
  | NavigableString _ => []
  end.

Definition soup_descendants (doc : soup) : list node :=
  flat_map (fun n => n :: descendants n) doc.

Definition has_name (name : text) (n : node) : bool :=
  match n with
  | Tag nm _ _ => text_eqb nm name
  | NavigableString _ => false
  end.

(** [elem.find_all(name)] *)
Definition find_all (n : node) (name : text) : list node :=
  filter (has_name name) (descendants n).

(** [soup.find_all(name)] *)
Definition soup_find_all (doc : soup) (name : text) : list node :=
  filter (has_name name) (soup_descendants doc).

(** [elem.find(name)] *)
Definition find (n : node) (name : text) : option node :=
  hd_error (find_all n name).

(** [elem.get(attr)] *)
Definition get_attr (n : node) (attr : text) : option text :=
  match n with
  | Tag _ attrs _ => dict_get text_eq_dec attrs attr
  | NavigableString _ => None
  end.

Definition own_string (n : node) : text :=
  match n with
  | NavigableString s => s
  | Tag _ _ _ => []
  end.

(** [elem.text]: the strings below the element, concatenated. *)
Definition text_of (n : node) : text :=
  own_string n ++ flat_map own_string (descendants n).

(** Truth value of an attribute that may be missing: a non-empty string. *)
Definition truthy (a : option text) : bool :=
  match a with
  | Some (_ :: _) => true
  | _ => false
  end.

Definition opt_str (a : option text) : pyval :=
  match a with Some s => VStr s | None => VNone end.

Definition opt_int (z : option Z) : pyval :=
  match z with Some n => VInt n | None => VNone end.

(** A commentary record. *)
Definition entry := dict text pyval.

Section Parsers.
Variable U : Unicode.

(** *** Scripture, markup *)

Definition xml_verse (chapter_data : chapter_t) (verse_elem : node)
  : result chapter_t :=
  verse_num <- int_of_attr U (get_attr verse_elem (txt "number")) ;;
  let verse_text := clean_bible_text U (text_of verse_elem) in
  Ok (dict_set Z.eq_dec chapter_data verse_num verse_text).

Definition xml_chapter (book_data : book_t) (chapter_elem : node)
  : result book_t :=
  chapter_num <- int_of_attr U (get_attr chapter_elem (txt "number")) ;;
  chapter_data <- for_each (find_all chapter_elem (txt "verse")) xml_verse [] ;;
  Ok (dict_set Z.eq_dec book_data chapter_num chapter_data).

Definition xml_book (bible_data : corpus hkey) (book_elem : node)
  : result (corpus hkey) :=
  let book_name :=
    match get_attr book_elem (txt "name") with
    | Some s => HStr s
    | None => HNone
    end in
  book_data <- for_each (find_all book_elem (txt "chapter")) xml_chapter [] ;;
  Ok (dict_set hkey_dec bible_data book_name book_data).

Definition _process_xml_bible (doc : soup) : result (corpus hkey) :=
  for_each (soup_find_all doc (txt "book")) xml_book [].

(** *** Scripture, JSON *)

Definition json_verse (chapter_data : chapter_t) (verse : pyval)
  : result chapter_t :=
  number <- py_getitem verse (txt "number") ;;
  verse_num <- py_int U number ;;
  body <- py_getitem verse (txt "text") ;;
  verse_text <- clean_bible_value U body ;;
  Ok (dict_set Z.eq_dec chapter_data verse_num verse_text).

Definition json_chapter (book_data : book_t) (chapter : pyval)
  : result book_t :=
  number <- py_getitem chapter (txt "number") ;;
  chapter_num <- py_int U number ;;
  verses <- py_getitem chapter (txt "verses") ;;
  verses <- py_iter verses ;;
  chapter_data <- for_each verses json_verse [] ;;
  Ok (dict_set Z.eq_dec book_data chapter_num chapter_data).

Definition json_book (bible_data : corpus hkey) (book : pyval)
  : result (corpus hkey) :=
  book_name <- py_getitem book (txt "name") ;;
  chapters <- py_getitem book (txt "chapters") ;;
  chapters <- py_iter chapters ;;
  book_data <- for_each chapters json_chapter [] ;;
  key <- py_hash book_name ;;
  Ok (dict_set hkey_dec bible_data key book_data).

Definition json_verse_item (chapter_data : chapter_t) (kv : text * pyval)
  : result chapter_t :=
  verse_num <- int_of_text U (fst kv) ;;
  verse_text <- clean_bible_value U (snd kv) ;;
  Ok (dict_set Z.eq_dec chapter_data verse_num verse_text).

Definition json_chapter_item (book_data : book_t) (kv : text * pyval)
  : result book_t :=
  chapter_num <- int_of_text U (fst kv) ;;
  verses <- py_items (snd kv) ;;
  chapter_data <- for_each verses json_verse_item [] ;;
  Ok (dict_set Z.eq_dec book_data chapter_num chapter_data).

Definition json_book_item (bible_data : corpus hkey) (kv : text * pyval)
  : result (corpus hkey) :=
  chapters <- py_items (snd kv) ;;
  book_data <- for_each chapters json_chapter_item [] ;;
  Ok (dict_set hkey_dec bible_data (HStr (fst kv)) book_data).

(** The body of the [try] of [_process_json_bible], from the decoded
    document on. *)
Definition json_bible_of (data : pyval) : result (corpus hkey) :=
  has_books <- py_contains (txt "books") data ;;
  if has_books : bool
  then books <- py_getitem data (txt "books") ;;
       books <- py_iter books ;;
       for_each books json_book []
  else items <- py_items data ;;
       for_each items json_book_item [].

(** *** Commentary, markup *)

Definition int_if_present (a : option text) : result (option Z) :=
  if truthy a then z <- int_of_attr U a ;; Ok (Some z) else Ok None.

Definition xml_reference (e : entry) (ref_elem : node) : result entry :=
  let e := dict_set text_eq_dec e (txt "book")
             (opt_str (get_attr ref_elem (txt "book"))) in
  chapter <- int_if_present (get_attr ref_elem (txt "chapter")) ;;
  let e := dict_set text_eq_dec e (txt "chapter") (opt_int chapter) in
  verse_start <- int_if_present (get_attr ref_elem (txt "verse_start")) ;;
  let e := dict_set text_eq_dec e (txt "verse_start") (opt_int verse_start) in
  verse_end <- int_if_present (get_attr ref_elem (txt "verse_end")) ;;
  Ok (dict_set text_eq_dec e (txt "verse_end")
        (match verse_end with
         | Some z => VInt z
         | None => opt_int verse_start
         end)).

Definition xml_author (e : entry) (author_elem : node) : result entry :=
  let e := dict_set text_eq_dec e (txt "author") (VStr (text_of author_elem)) in
  year <- int_if_present (get_attr author_elem (txt "year")) ;;
  Ok (dict_set text_eq_dec e (txt "year") (opt_int year)).

Definition xml_entry (source : text) (entries : list entry) (entry_elem : node)
  : result (list entry) :=
  content <- match find entry_elem (txt "content") with
             | Some c => Ok (clean_commentary_text U (text_of c))
             | None => Raise AttributeError
             end ;;
  let e : entry :=
    [ (txt "source", VStr source);
      (txt "content", VStr content);
      (txt "tradition",
       VStr (match get_attr entry_elem (txt "tradition") with
             | Some t => t
             | None => txt "unknown"
             end)) ] in
  e <- match find entry_elem (txt "reference") with
       | Some ref_elem => xml_reference e ref_elem
       | None => Ok e
       end ;;
  e <- match find entry_elem (txt "author") with
       | Some author_elem => xml_author e author_elem
       | None => Ok e
       end ;;
  Ok (entries ++ [e]).

Definition _process_xml_commentary (doc : soup) (source : text)
  : result (list entry) :=
  for_each (soup_find_all doc (txt "entry")) (xml_entry source) [].

(** *** Commentary, JSON *)

Definition json_item (source : text) (entries : list entry) (item : pyval)
  : result (list entry) :=
  e <- py_setitem item (txt "source") (VStr source) ;;
  e <- match dict_get text_eq_dec e (txt "content") with
       | Some c =>
           cleaned <- clean_commentary_value U c ;;
           Ok (dict_set text_eq_dec e (txt "content") (VStr cleaned))
       | None => Ok e
       end ;;
  Ok (entries ++ [e]).

(** The body of the [try] of [_process_json_commentary]. *)
Definition json_commentary_of (data : pyval) (source : text)
  : result (list entry) :=
  match data with
  | VList items => for_each items (json_item source) []
  | VDict d =>
      match dict_get text_eq_dec d (txt "entries") with
      | Some v => items <- py_iter v ;; for_each items (json_item source) []
      | None => Ok []
      end
  | _ => Ok []
  end.

(** *** Scripture, plain text *)

(** [[1-3]?] *)
Definition opt_numeral (s : text) : text :=
  match s with
  | c :: _ => if in_range 49 51 c then [c] else []
  | [] => []
  end.

(** [([1-3]?\s*[A-Za-z]+)\s+(\d+):(\d+)]: group 1, the two runs of digits
    and what follows the match.  Every quantifier is greedy and giving a
    character back never helps: the classes that meet are disjoint. *)
Definition ref_head (s : text) : option (text * text * text * text) :=
  let d := opt_numeral s in
  let s1 := skipn (length d) s in
  let ws := take_while is_space s1 in
  let s2 := drop_while is_space s1 in
  let name := take_while is_ascii_letter s2 in
  let s3 := drop_while is_ascii_letter s2 in
  let s4 := drop_while is_space s3 in
  let chapter := take_while (is_digit U) s4 in
  let verse := take_while (is_digit U) (tl (drop_while (is_digit U) s4)) in
  match name, take_while is_space s3, chapter,
        drop_while (is_digit U) s4, verse with
  | _ :: _, _ :: _, _ :: _, colon :: s5, _ :: _ =>
      if (colon =? 58)%N
      then Some (d ++ ws ++ name, chapter, verse, drop_while (is_digit U) s5)
      else None
  | _, _, _, _, _ => None
  end.

(** [$] without [re.MULTILINE]: the end, or before a final newline. *)
Definition at_end (s : text) : bool :=
  match s with
  | [] => true
  | [c] => (c =? 10)%N
  | _ => false
  end.

(** [(.*?)(?=(?:[1-3]?\s*[A-Za-z]+\s+\d+:\d+)|$)] under [re.DOTALL]: the
    shortest text after which a reference or the end stands. *)
Fixpoint lazy_body (s : text) : text :=
  match s with
  | [] => []
  | c :: s' =>
      match ref_head s with
      | Some _ => []
      | None => if at_end s then [] else c :: lazy_body s'
      end
  end.

(** [book_chapter_verse_pattern] *)
Definition re_book_chapter_verse : regex :=
  fun _ s =>
    match ref_head s with
    | Some (g1, chapter, verse, s') =>
        match take_while is_space s' with
        | _ :: _ =>
            let rest := drop_while is_space s' in
            let body := lazy_body rest in
            Some {| more := length s - length rest + length body - 1;
                    groups := [g1; chapter; verse; body] |}
        | [] => None
        end
    | None => None
    end.
End Parsers.

(** [pattern.finditer(s)]: the groups of the successive matches. *)
Fixpoint finditer_from (re : regex) (skip : nat) (prev : option char)
    (s : text) : list (list text) :=
  match s with
  | [] => []
  | c :: s' =>
      match skip with
      | S k => finditer_from re k (Some c) s'
      | O =>
          match re prev s with
          | Some m => groups m :: finditer_from re (more m) (Some c) s'
          | None => finditer_from re 0 (Some c) s'
          end
      end
  end.

Definition finditer (re : regex) (s : text) : list (list text) :=
  finditer_from re 0 None s.

Section PlainText.
Variable U : Unicode.

(** One turn of the loop of [_process_txt_bible]. *)
Definition txt_verse (bible_data : corpus text) (m : list text)
  : result (corpus text) :=
  let book := strip (group 1 m) in
  chapter <- int_of_text U (group 2 m) ;;
  verse <- int_of_text U (group 3 m) ;;
  let body := clean_bible_text U (group 4 m) in
  let book_data := dict_get_or text_eq_dec bible_data book [] in
  let chapter_data := dict_get_or Z.eq_dec book_data chapter [] in
  Ok (dict_set text_eq_dec bible_data book
        (dict_set Z.eq_dec book_data chapter
           (dict_set Z.eq_dec chapter_data verse body))).

Definition _process_txt_bible (content : text) : result (corpus text) :=
  for_each (finditer (re_book_chapter_verse U) content) txt_verse [].
End PlainText.

Section Json.
Variable U : Unicode.

(** [json.loads]: the decoded document, or [None] where it raises
    [json.JSONDecodeError]. *)
Variable json_loads : text -> option pyval.

Definition _process_json_bible (content : text) : result (corpus hkey) :=
  match json_loads content with
  | Some data => json_bible_of U data
  | None => Ok []                   (* except json.JSONDecodeError *)
  end.

Definition _process_json_commentary (content source : text)
  : result (list entry) :=
  match json_loads content with
  | Some data => json_commentary_of U data source
  | None => Ok []                   (* except json.JSONDecodeError *)
  end.
End Json.

(** ** Alignment *)

(** One element of [all_refs]. *)
Record verse_ref := {
  ref_book : text;
  ref_chapter : Z;
  ref_verse : Z;
  ref_reference : text
}.

(** [f"{book} {chapter}:{verse}"] *)
Definition mk_ref (book : text) (chapter verse : Z) : verse_ref :=
  {| ref_book := book; ref_chapter := chapter; ref_verse := verse;
     ref_reference :=
       book ++ txt " " ++ str_of_int chapter ++ txt ":" ++ str_of_int verse |}.

Definition verse_ref_dec : forall a b : verse_ref, {a = b} + {a <> b}.
Proof. decide equality; (apply text_eq_dec || apply Z.eq_dec). Defined.

(** A row of the frame: the four fixed columns and the columns added to it,
    by name. *)
Record row := {
  row_ref : verse_ref;
  row_cols : dict text text
}.

Definition frame := list row.

(** [if ref not in all_refs: all_refs.append(ref)] *)
Definition add_ref (all_refs : list verse_ref) (r : verse_ref) : list verse_ref :=
  if in_dec verse_ref_dec r all_refs then all_refs else all_refs ++ [r].

Definition refs_of_chapter (book : text) (chapter : Z) (verses : chapter_t)
    (all_refs : list verse_ref) : list verse_ref :=
  fold_left (fun acc vt => add_ref acc (mk_ref book chapter (fst vt)))
            verses all_refs.

Definition refs_of_book (book : text) (chapters : book_t)
    (all_refs : list verse_ref) : list verse_ref :=
  fold_left (fun acc cv => refs_of_chapter book (fst cv) (snd cv) acc)
            chapters all_refs.

Definition refs_of_bible (bible_data : corpus text)
    (all_refs : list verse_ref) : list verse_ref :=
  fold_left (fun acc bc => refs_of_book (fst bc) (snd bc) acc)
            bible_data all_refs.

Definition collect_refs (bibles : dict text (corpus text)) : list verse_ref :=
  fold_left (fun acc tb => refs_of_bible (snd tb) acc) bibles [].

(** [bible_data.get(book, {}).get(chapter, {}).get(verse, "")] *)
Definition lookup_text (bible_data : corpus text) (r : verse_ref) : text :=
  dict_get_or Z.eq_dec
    (dict_get_or Z.eq_dec
       (dict_get_or text_eq_dec bible_data (ref_book r) [])
       (ref_chapter r) [])
    (ref_verse r) [].

(** [df[name] = cells], one cell per row. *)
Definition assign (df : frame) (name : text) (cells : list text) : frame :=
  map (fun rc =>
         {| row_ref := row_ref (fst rc);
            row_cols := dict_set text_eq_dec (row_cols (fst rc)) name (snd rc) |})
      (combine df cells).

(** [df.apply(f, axis=1)] on a frame with rows: one cell per row. *)
Fixpoint apply_rows (f : row -> result text) (df : frame) : result (list text) :=
  match df with
  | [] => Ok []
  | r :: df' => c <- f r ;; cs <- apply_rows f df' ;; Ok (c :: cs)
  end.

(** [df[name] = df.apply(f, axis=1)].  On a frame without rows [apply] calls
    [f] on no row and returns an empty frame, not a column, and the
    assignment of a frame without columns to [df[name]] raises
    [ValueError]. *)
Definition set_column (df : frame) (name : text) (f : row -> result text)
  : result frame :=
  cells <- apply_rows f df ;;
  match df with
  | [] => Raise ValueError
  | _ :: _ => Ok (assign df name cells)
  end.

Definition add_translation (df : frame) (tb : text * corpus text) : result frame :=
  set_column df (txt "text_" ++ fst tb)
             (fun r => Ok (lookup_text (snd tb) (row_ref r))).

(** The keys of [commentary_map]: [(book, chapter, verse)]. *)
Definition comm_key := (hkey * hkey * Z)%type.

Definition comm_key_dec : forall a b : comm_key, {a = b} + {a <> b}.
Proof. decide equality; [apply Z.eq_dec | decide equality; apply hkey_dec]. Defined.

Definition comm_map := dict comm_key (list pyval).

(** [v + 1] *)
Definition py_succ (v : pyval) : result Z :=
  match v with
  | VInt z => Ok (z + 1)%Z
  | VBool b => Ok (Z.b2z b + 1)%Z
  | _ => Raise TypeError
  end.

(** An argument of [range]: an [int]. *)
Definition py_index (v : pyval) : result Z :=
  match v with
  | VInt z => Ok z
  | VBool b => Ok (Z.b2z b)
  | _ => Raise TypeError
  end.

(** [range(start, stop)] *)
Definition py_range (start stop : Z) : list Z :=
  map (fun i => (start + Z.of_nat i)%Z) (seq 0 (Z.to_nat (stop - start))).

(** [sep.join(l)] *)
Fixpoint py_join (sep : text) (l : list pyval) : result text :=
  match l with
  | [] => Ok []
  | [VStr s] => Ok s
  | VStr s :: l' => r <- py_join sep l' ;; Ok (s ++ sep ++ r)
  | _ :: _ => Raise TypeError
  end.

(** One turn of the loop over [range(verse_start, verse_end + 1)]. *)
Definition add_verse (e : entry) (book chapter : pyval)
    (commentary_map : comm_map) (verse : Z) : result comm_map :=
  kb <- py_hash book ;;
  kc <- py_hash chapter ;;
  let key := (kb, kc, verse) in
  content <- py_getitem (VDict e) (txt "content") ;;
  Ok (dict_set comm_key_dec commentary_map key
        (dict_get_or comm_key_dec commentary_map key [] ++ [content])).

(** One turn of the loop over [entries]. *)
Definition add_entry (commentary_map : comm_map) (e : entry) : result comm_map :=
  match dict_get text_eq_dec e (txt "book"),
        dict_get text_eq_dec e (txt "chapter"),
        dict_get text_eq_dec e (txt "verse_start") with
  | Some book, Some chapter, Some verse_start =>
      let verse_end := dict_get_or text_eq_dec e (txt "verse_end") verse_start in
      stop <- py_succ verse_end ;;
      start <- py_index verse_start ;;
      for_each (py_range start stop) (add_verse e book chapter) commentary_map
  | _, _, _ => Ok commentary_map
  end.

Definition row_key (r : row) : comm_key :=
  (HStr (ref_book (row_ref r)), HInt (ref_chapter (row_ref r)),
   ref_verse (row_ref r)).

(** ["; ".join(commentary_map.get((book, chapter, verse), []))] *)
Definition commentary_cell (commentary_map : comm_map) (r : row) : result text :=
  py_join (txt "; ") (dict_get_or comm_key_dec commentary_map (row_key r) []).

Definition add_commentary (df : frame) (se : text * list entry) : result frame :=
  commentary_map <- for_each (snd se) add_entry [] ;;
  set_column df (txt "commentary_" ++ fst se) (commentary_cell commentary_map).

(** The frame is a list of rows; the writing of the frame to the processed
    directory is not modelled. *)
Definition create_verse_aligned_dataset
    (bibles : dict text (corpus text)) (commentaries : dict text (list entry))
  : result frame :=
  let all_refs := collect_refs bibles in
  let df := map (fun r => {| row_ref := r; row_cols := [] |}) all_refs in
  df <- for_each bibles add_translation df ;;
  for_each commentaries add_commentary df.

(** [bible_data[book][chapter][verse]], when the three keys are there. *)
Definition verse_at (bible_data : corpus text) (book : text) (chapter verse : Z)
  : option text :=
  dict_get Z.eq_dec
    (dict_get_or Z.eq_dec (dict_get_or text_eq_dec bible_data book []) chapter [])
    verse.

Section PlainTextKeys.
Variable U : Unicode.

(** The key under which a match is stored, when [int()] accepts its two
    runs of digits. *)
Definition match_key (m : list text) : option (text * Z * Z) :=
  match int_of_text U (group 2 m), int_of_text U (group 3 m) with
  | Ok chapter, Ok verse => Some (strip (group 1 m), chapter, verse)
  | _, _ => None
  end.

Definition key_dec : forall a b : text * Z * Z, {a = b} + {a <> b}.
Proof. decide equality; [apply Z.eq_dec | decide equality; [apply Z.eq_dec | apply text_eq_dec]]. Defined.

Definition has_key (k : text * Z * Z) (m : list text) : bool :=
  match match_key m with
  | Some k' => if key_dec k' k then true else false
  | None => false
  end.

(** The last match of a list that carries the key. *)
Fixpoint last_with_key (k : text * Z * Z) (ms : list (list text))
  : option (list text) :=
  match ms with
  | [] => None
  | m :: ms' =>
      match last_with_key k ms' with
      | Some m' => Some m'
      | None => if has_key k m then Some m else None
      end
  end.
End PlainTextKeys.

(** *** Reading the aligned frame *)

(** A verse reference occurs in one of the corpora. *)
Definition in_corpora (bibles : dict text (corpus text)) (r : verse_ref) : Prop :=
  exists translation bible_data book chapters chapter verses verse body,
    In (translation, bible_data) bibles /\ In (book, chapters) bible_data /\
    In (chapter, verses) chapters /\ In (verse, body) verses /\
    r = mk_ref book chapter verse.


(** [row[name]] *)
Definition column (rw : row) (name : text) : option text :=
  dict_get text_eq_dec (row_cols rw) name.

(** An [int] held by a record field. *)
Definition int_field (v : pyval) : option Z :=
  match v with
  | VInt z => Some z
  | VBool b => Some (Z.b2z b)
  | _ => None
  end.

(** The field equals, as a dictionary key, the given key. *)
Definition same_key (v : pyval) (k : hkey) : bool :=
  match py_hash v with
  | Ok k' => if hkey_dec k' k then true else false
  | Raise _ => false
  end.

(** The record carries [book], [chapter] and [verse_start], its book and
    chapter are those of the key and the verse of the key lies in
    [[verse_start, verse_end]], [verse_end] being [verse_start] when the
    record has none. *)
Definition covers_key (k : comm_key) (e : entry) : bool :=
  match dict_get text_eq_dec e (txt "book"),
        dict_get text_eq_dec e (txt "chapter"),
        dict_get text_eq_dec e (txt "verse_start") with
  | Some book, Some chapter, Some verse_start =>
      match int_field verse_start,
            int_field (dict_get_or text_eq_dec e (txt "verse_end") verse_start) with
      | Some first, Some last =>
          (first <=? snd k)%Z && (snd k <=? last)%Z
          && same_key book (fst (fst k)) && same_key chapter (snd (fst k))
      | _, _ => false
      end
  | _, _, _ => false
  end.

Definition covers (r : verse_ref) (e : entry) : bool :=
  covers_key (HStr (ref_book r), HInt (ref_chapter r), ref_verse r) e.

(** [entry['content']] *)
Definition entry_content (e : entry) : pyval :=
  dict_get_or text_eq_dec e (txt "content") VNone.

Definition str_value (v : pyval) : text :=
  match v with VStr s => s | _ => [] end.

(** The content of a record, a [str]. *)
Definition content_text (e : entry) : text := str_value (entry_content e).

(** [sep.join(l)] on texts. *)
Fixpoint join_text (sep : text) (l : list text) : text :=
  match l with
  | [] => []
  | [s] => s
  | s :: l' => s ++ sep ++ join_text sep l'
  end.

(** The keys of a [dict] are distinct. *)
Definition is_dict {K V} (d : dict K V) : Prop := NoDup (map fst d).

(** *** The examples of the specification *)




Definition john_bibles : dict text (corpus text) :=
  [ (txt "A", [ (txt "John", [ (3%Z, [ (15%Z, txt "a"); (16%Z, txt "b");
                                       (17%Z, txt "c"); (18%Z, txt "d") ]) ]) ]) ].

Definition john_entries : list entry :=
  [ [ (txt "content", VStr (txt "one")); (txt "book", VStr (txt "John"));
      (txt "chapter", VInt 3); (txt "verse_start", VInt 16);
      (txt "verse_end", VInt 17) ];
    [ (txt "content", VStr (txt "two")); (txt "chapter", VInt 3) ];
    [ (txt "content", VStr (txt "three")); (txt "book", VStr (txt "John"));
      (txt "chapter", VInt 3); (txt "verse_start", VInt 17) ] ].

Definition john_commentaries : dict text (list entry) :=
  [ (txt "S", john_entries) ].

Definition john_row (verse : Z) (body commentary : text) : row :=
  {| row_ref := mk_ref (txt "John") 3 verse;
     row_cols := [ (txt "text_A", body); (txt "commentary_S", commentary) ] |}.

Definition john_frame : frame :=
  [ john_row 15 (txt "a") [];
    john_row 16 (txt "b") (txt "one");
    john_row 17 (txt "c") (txt "one; three");
    john_row 18 (txt "d") [] ].

(** *** Defects of a markup document *)

Definition lacks_number (n : node) : Prop := get_attr n (txt "number") = None.

(** A chapter element, or a verse element of a chapter, of some book has no
    [number] attribute. *)
Definition scripture_defect (doc : soup) : Prop :=
  exists book_elem chapter_elem,
    In book_elem (soup_find_all doc (txt "book")) /\
    In chapter_elem (find_all book_elem (txt "chapter")) /\
    (lacks_number chapter_elem \/
     exists verse_elem,
       In verse_elem (find_all chapter_elem (txt "verse")) /\
       lacks_number verse_elem).

(** An entry element has no [content] element below it. *)
Definition commentary_defect (doc : soup) : Prop :=
  exists entry_elem,
    In entry_elem (soup_find_all doc (txt "entry")) /\
    find entry_elem (txt "content") = None.

Definition verse_tag (number body : string) : node :=
  Tag (txt "verse") [ (txt "number", txt number) ] [ NavigableString (txt body) ].

(** A book whose first chapter has no [number]; the second is sound. *)
Definition defective_bible_doc : soup :=
  [ Tag (txt "bible") []
      [ Tag (txt "book") [ (txt "name", txt "Genesis") ]
          [ Tag (txt "chapter") [] [ verse_tag "1" "In the beginning" ];
            Tag (txt "chapter") [ (txt "number", txt "2") ]
                [ verse_tag "1" "Thus the heavens" ] ] ] ].

(** Two entries, the first without [content]. *)
Definition defective_commentary_doc : soup :=
  [ Tag (txt "commentary") []
      [ Tag (txt "entry") []
          [ Tag (txt "reference")
                [ (txt "book", txt "John"); (txt "chapter", txt "3");
                  (txt "verse_start", txt "16") ] [] ];
        Tag (txt "entry") []
          [ Tag (txt "content") [] [ NavigableString (txt "For God so loved") ] ] ] ].

(** One entry whose reference gives a chapter and no book. *)
Definition partial_reference_doc : soup :=
  [ Tag (txt "commentary") []
      [ Tag (txt "entry") []
          [ Tag (txt "content") [] [ NavigableString (txt "On the new birth") ];
            Tag (txt "reference") [ (txt "chapter", txt "3") ] [] ] ] ].

(** The record [_process_xml_commentary] makes of it. *)
Definition partial_reference_entry : entry :=
  [ (txt "source", VStr (txt "S"));
    (txt "content", VStr (txt "On the new birth"));
    (txt "tradition", VStr (txt "unknown"));
    (txt "book", VNone);
    (txt "chapter", VInt 3);
    (txt "verse_start", VNone);
    (txt "verse_end", VNone) ].

(** A decoder that knows one document, the empty array. *)
Definition loads_empty_array (content : text) : option pyval :=
  if text_eqb content (txt "[]") then Some (VList []) else None.

(** *** Occurrences of a protected term *)

(** The last character of a text, when it has one. *)
Definition last_opt (s : text) : option char :=
  match s with
  | [] => None
  | _ :: _ => Some (last s 0%N)
  end.

(** The character before a position, once [l] has been passed. *)
Definition last_or (prev : option char) (l : text) : option char :=
  match l with
  | [] => prev
  | _ :: _ => Some (last l 0%N)
  end.

Definition protected_terms : list text := map fst theological_terms.

Section Occurrences.
Variable U : Unicode.

(** The term stands at the head of [s], in some casing and as a whole word,
    [prev] being the character before: [\bTERM\b] matches there. *)
Definition occurs (term : text) (prev : option char) (s : text) : bool :=
  match re_term U term prev s with
  | Some _ => true
  | None => false
  end.

(** Wherever the term occurs in [s], it is written in its own casing. *)
Fixpoint canonical (term : text) (prev : option char) (s : text) : Prop :=
  (occurs term prev s = true -> firstn (length term) s = term) /\
  match s with
  | [] => True
  | c :: s' => canonical term (Some c) s'
  end.

(** The claim on protected terms as the specification states it: a term that
    occurs in the input, in any casing, is in the output in its own
    casing. *)
Definition term_survives (term x : text) : Prop :=
  forall pre rest,
    x = pre ++ rest -> occurs term (last_opt pre) rest = true ->
    exists pre' rest', clean_commentary_text U x = pre' ++ term ++ rest'.
End Occurrences.

(** Two characters [re.IGNORECASE] does not tell apart. *)
Definition same_fold (a b : char) : Prop := casefold a = casefold b.

Definition same_fold_opt (a b : option char) : Prop :=
  match a, b with
  | Some x, Some y => same_fold x y
  | None, None => True
  | _, _ => False
  end.

(** *** Columns and cells *)

(** What [df[name] = cells] does to one row. *)
Definition assigned (name : text) (Q : row -> text -> Prop) (rw rw' : row) : Prop :=
  row_ref rw' = row_ref rw /\
  exists c, Q rw c /\ row_cols rw' = dict_set text_eq_dec (row_cols rw) name c.

(** The columns outside [names] are those of the row before. *)
Definition keeps (names : list text) (rw rw' : row) : Prop :=
  row_ref rw' = row_ref rw /\
  forall name, ~ In name names -> column rw' name = column rw name.

(** The verse of the loop is the one of the key, under the book and the
    chapter of the record. *)
Definition hits (book chapter : pyval) (k : comm_key) (verse : Z) : bool :=
  same_key book (fst (fst k)) && same_key chapter (snd (fst k))
  && (snd k =? verse)%Z.

(** The cell of a commentary column, as the claim words it. *)
Definition joined_contents (entries : list entry) (r : verse_ref) : text :=
  join_text (txt "; ") (map content_text (filter (covers r) entries)).

(** *** Texts the cleaner leaves alone *)

Definition space_opt (o : option char) : bool :=
  match o with Some c => is_space c | None => false end.

(** Neither a curly quote, nor a footnote marker, nor an opening bracket. *)
Definition plain (c : char) : bool :=
  negb ((c =? 8220)%N || (c =? 8221)%N || (c =? 8216)%N || (c =? 8217)%N
        || is_footnote_marker c || (c =? 91)%N).

Section Tidy.
Variable U : Unicode.

Definition digit_opt (o : option char) : bool :=
  match o with Some c => is_digit U c | None => false end.

(** A text no step of [clean_bible_text] has work on: plain characters, the
    only whitespace single U+0020 between two other characters, no digit,
    [:] or [.], digit in a row, no space before punctuation. *)
Fixpoint tidy (prev : option char) (s : text) : bool :=
  match s with
  | [] => negb (space_opt prev)
  | c :: s' =>
      plain c
      && (if is_space c
          then (c =? 32)%N
               && match prev with Some p => negb (is_space p) | None => false end
          else true)
      && negb (space_opt prev && is_punct c)
      && negb (digit_opt prev && is_verse_sep c && digit_opt (hd_error s'))
      && tidy (Some c) s'
  end.
End Tidy.

(** The match, if there is one, is a single character replaced by itself. *)
Definition self_match (re : regex) (repl : template) (prev : option char)
    (s : text) : Prop :=
  match re prev s with
  | None => True
  | Some m => more m = 0 /\ repl (groups m) = firstn 1 s
  end.

(** *** Commentary, plain text *)

(** [pattern.split(s)] for a pattern without groups: the texts between the
    successive matches.  The head of the result is the text that runs from
    the position of the scan to the next match. *)
Fixpoint split_from (re : regex) (skip : nat) (prev : option char)
    (s : text) : list text :=
  match s with
  | [] => [[]]
  | c :: s' =>
      match skip with
      | S k => split_from re k (Some c) s'
      | O =>
          match re prev s with
          | Some m => [] :: split_from re (more m) (Some c) s'
          | None =>
              match split_from re 0 (Some c) s' with
              | piece :: pieces => (c :: piece) :: pieces
              | [] => [[c]]
              end
          end
      end
  end.

Definition re_split (re : regex) (s : text) : list text :=
  split_from re 0 None s.

(** The last position of [l] at which [p] holds of the text from there on. *)
Fixpoint last_start (p : text -> bool) (l : text) : option nat :=
  match l with
  | [] => None
  | _ :: l' =>
      match last_start p l' with
      | Some i => Some (S i)
      | None => if p l then Some 0 else None
      end
  end.

(** [\n\s*\n|\r\n\s*\r\n]: the greedy [\s*] gives characters back until the
    closing newline is found, so the match ends with the last newline (the
    last carriage return and newline) of the run of whitespace. *)
Definition re_blank_line : regex :=
  fun _ s =>
    match s with
    | 10%N :: s' =>
        match last_start (is_prefix [10%N]) (take_while is_space s') with
        | Some i => Some {| more := S i; groups := [] |}
        | None => None
        end
    | 13%N :: 10%N :: s' =>
        match last_start (is_prefix [13%N; 10%N]) (take_while is_space s') with
        | Some i => Some {| more := i + 3; groups := [] |}
        | None => None
        end
    | _ => None
    end.

(** [s.replace(old, '', 1)] *)
Fixpoint remove_first (old s : text) : text :=
  match s with
  | [] => []
  | c :: s' =>
      if is_prefix old s then skipn (length old) s
      else c :: remove_first old s'
  end.

(** [pattern.search(s)] for a pattern given by the text it matches at a
    position: the leftmost match. *)
Fixpoint search (re : text -> option text) (s : text) : option text :=
  match re s with
  | Some r => Some r
  | None =>
      match s with
      | [] => None
      | _ :: s' => search re s'
      end
  end.

Section PlainTextCommentary.
Variable U : Unicode.

(** [(?:-(\d+))?] at the head of [s]: the digits, when the group takes
    part. *)
Definition opt_range (s : text) : option text :=
  match s with
  | c :: s' =>
      if (c =? 45)%N
      then match take_while (is_digit U) s' with
           | [] => None
           | d => Some d
           end
      else None
  | [] => None
  end.

(** [([1-3]?\s*[A-Za-z]+\s+\d+:\d+(?:-\d+)?)]: the text matched at the head
    of [s]. *)
Definition ref_span (s : text) : option text :=
  match ref_head U s with
  | Some (_, _, _, rest) =>
      let range := match opt_range rest with
                   | Some d => S (length d)
                   | None => 0
                   end in
      Some (firstn (length s - length rest + range) s)
  | None => None
  end.

(** [re.match(r'([1-3]?\s*[A-Za-z]+)\s+(\d+):(\d+)(?:-(\d+))?', s)]: the four
    groups. *)
Definition ref_match (s : text) : option (text * text * text * option text) :=
  match ref_head U s with
  | Some (book, chapter, verse, rest) =>
      Some (book, chapter, verse, opt_range rest)
  | None => None
  end.

(** One turn of the loop of [_process_txt_commentary]. *)
Definition txt_section (source : text) (entries : list entry) (section : text)
  : result (list entry) :=
  match strip section with
  | [] => Ok entries
  | _ :: _ =>
      match search ref_span section with
      | Some reference =>
          let remaining_text := strip (remove_first reference section) in
          match ref_match reference with
          | Some (book, chapter, verse_start, verse_end) =>
              let content := clean_commentary_text U remaining_text in
              chapter_num <- int_of_text U chapter ;;
              first_verse <- int_of_text U verse_start ;;
              last_verse <- int_of_text U match verse_end with
                                          | Some d => d
                                          | None => verse_start
                                          end ;;
              Ok (entries ++
                  [ [ (txt "source", VStr source);
                      (txt "content", VStr content);
                      (txt "book", VStr book);
                      (txt "chapter", VInt chapter_num);
                      (txt "verse_start", VInt first_verse);
                      (txt "verse_end", VInt last_verse) ] ])
          | None =>
              Ok (entries ++
                  [ [ (txt "source", VStr source);
                      (txt "content", VStr (clean_commentary_text U section));
                      (txt "reference", VStr reference) ] ])
          end
      | None =>
          Ok (entries ++
              [ [ (txt "source", VStr source);
                  (txt "content", VStr (clean_commentary_text U section)) ] ])
      end
  end.

Definition _process_txt_commentary (content source : text) : result (list entry) :=
  for_each (re_split re_blank_line content) (txt_section source) [].
End PlainTextCommentary.

(** ** Vocabulary of the further properties *)

(** *** Cleaned text *)

(** What every character of a normalized text is: no whitespace other than
    U+0020 and no footnote marker. *)
Definition normalized_char (c : char) : Prop :=
  (is_space c = true -> c = 32%N) /\ is_footnote_marker c = false.

(** No opening bracket of the text has a closing bracket after it. *)
Definition bracket_free (s : text) : Prop :=
  forall a b, s = a ++ 91%N :: b -> ~ In 93%N b.

(** No whitespace character of the text stands right before one of
    [, . ; : ? !], [prev] being the character before the text. *)
Fixpoint spaced_punct_free (prev : option char) (s : text) : Prop :=
  match s with
  | [] => True
  | c :: s' =>
      (space_opt prev = true -> is_punct c = false) /\
      spaced_punct_free (Some c) s'
  end.

(** *** Records *)

(** [e.get(key)] of a record. *)
Definition field (e : entry) (key : string) : option pyval :=
  dict_get text_eq_dec e (txt key).

Definition none_or_int (v : pyval) : Prop := v = VNone \/ exists z, v = VInt z.

Definition none_or_str (v : pyval) : Prop := v = VNone \/ exists s, v = VStr s.

(** The reference fields of a record of the markup parser: none of the four,
    or the four together, [verse_end] being an [int] or what [verse_start]
    is. *)
Definition markup_reference (e : entry) : Prop :=
  (field e "book" = None /\ field e "chapter" = None /\
   field e "verse_start" = None /\ field e "verse_end" = None) \/
  (exists book chapter verse_start verse_end,
     field e "book" = Some book /\ field e "chapter" = Some chapter /\
     field e "verse_start" = Some verse_start /\
     field e "verse_end" = Some verse_end /\
     none_or_str book /\ none_or_int chapter /\ none_or_int verse_start /\
     (verse_end = verse_start \/ exists z, verse_end = VInt z)).

Definition markup_record (source : text) (e : entry) : Prop :=
  field e "source" = Some (VStr source) /\
  (exists s, field e "content" = Some (VStr s)) /\
  (exists t, field e "tradition" = Some (VStr t)) /\
  markup_reference e.

(** The items [_process_json_commentary] loops over when the document is an
    array, or an object whose [entries] is an array. *)
Definition record_items (data : pyval) : option (list pyval) :=
  match data with
  | VList items => Some items
  | VDict d =>
      match dict_get text_eq_dec d (txt "entries") with
      | Some (VList items) => Some items
      | _ => None
      end
  | _ => None
  end.

Section Stamped.
Variable U : Unicode.

(** What the JSON parser makes of one item: the object itself, with [source]
    set and [content], when it has one, a [str] that was cleaned. *)
Definition stamped (source : text) (item : pyval) (e : entry) : Prop :=
  exists d,
    item = VDict d /\
    field e "source" = Some (VStr source) /\
    match dict_get text_eq_dec d (txt "content") with
    | Some v => exists s, v = VStr s /\
                          field e "content" = Some (VStr (clean_commentary_text U s))
    | None => field e "content" = None
    end /\
    forall key, key <> txt "source" -> key <> txt "content" ->
                dict_get text_eq_dec e key = dict_get text_eq_dec d key.
End Stamped.

Definition is_int (v : pyval) : bool :=
  match int_field v with Some _ => true | None => false end.

Definition is_str (v : pyval) : bool :=
  match v with VStr _ => true | _ => false end.

Definition hashable (v : pyval) : bool :=
  match py_hash v with Ok _ => true | Raise _ => false end.

(** A record alignment can take: without one of [book], [chapter],
    [verse_start], or with [int] verses, hashable book and chapter and a
    [str] content. *)
Definition alignable (e : entry) : bool :=
  match field e "book", field e "chapter", field e "verse_start" with
  | Some book, Some chapter, Some verse_start =>
      is_int verse_start
      && is_int (dict_get_or text_eq_dec e (txt "verse_end") verse_start)
      && hashable book && hashable chapter
      && match field e "content" with Some c => is_str c | None => false end
  | _, _, _ => true
  end.

(** A record that carries the three keys with a [verse_start] that is no
    [int]. *)
Definition unalignable (e : entry) : bool :=
  match field e "book", field e "chapter", field e "verse_start" with
  | Some _, Some _, Some verse_start => negb (is_int verse_start)
  | _, _, _ => false
  end.

(** Every list of the map holds [str] only. *)
Definition all_strings (m : comm_map) : Prop :=
  forall k, Forall (fun v => is_str v = true) (dict_get_or comm_key_dec m k []).

(** *** Markup scripture *)

Section Numbered.
Variable U : Unicode.

(** [int()] accepts the [number] attribute of the element. *)
Definition numbered (n : node) : Prop :=
  exists z, int_of_attr U (get_attr n (txt "number")) = Ok z.

(** Every chapter element of a book, and every verse element of such a
    chapter, is numbered. *)
Definition scripture_numbered (doc : soup) : Prop :=
  forall book_elem chapter_elem,
    In book_elem (soup_find_all doc (txt "book")) ->
    In chapter_elem (find_all book_elem (txt "chapter")) ->
    numbered chapter_elem /\
    forall verse_elem,
      In verse_elem (find_all chapter_elem (txt "verse")) -> numbered verse_elem.
End Numbered.

(** The last element of a list that passes a test. *)
Fixpoint last_such {A} (p : A -> bool) (xs : list A) : option A :=
  match xs with
  | [] => None
  | x :: xs' =>
      match last_such p xs' with
      | Some y => Some y
      | None => if p x then Some x else None
      end
  end.

(** The key a book element is stored under. *)
Definition book_key (book_elem : node) : hkey :=
  match get_attr book_elem (txt "name") with
  | Some s => HStr s
  | None => HNone
  end.

Definition named (k : hkey) (book_elem : node) : bool :=
  if hkey_dec (book_key book_elem) k then true else false.

Section MarkupLookup.
Variable U : Unicode.

Definition has_number (z : Z) (n : node) : bool :=
  match int_of_attr U (get_attr n (txt "number")) with
  | Ok z' => (z' =? z)%Z
  | Raise _ => false
  end.

(** The text a markup document gives for a key: that of the last verse
    element with the verse number, in the last chapter element with the
    chapter number, in the last book element with the name. *)
Definition markup_verse (doc : soup) (book : hkey) (chapter verse : Z)
  : option text :=
  match last_such (named book) (soup_find_all doc (txt "book")) with
  | None => None
  | Some book_elem =>
      match last_such (has_number chapter) (find_all book_elem (txt "chapter")) with
      | None => None
      | Some chapter_elem =>
          match last_such (has_number verse) (find_all chapter_elem (txt "verse")) with
          | None => None
          | Some verse_elem => Some (clean_bible_text U (text_of verse_elem))
          end
      end
  end.
End MarkupLookup.

(** *** Plain-text commentary *)

(** The text is empty or its first character is outside the class. *)
Definition stops (p : char -> bool) (s : text) : Prop :=
  match s with
  | [] => True
  | c :: _ => p c = false
  end.

(** The text of a reference, part by part. *)
Definition ref_text (d ws name ws2 chapter verse rest : text) : text :=
  d ++ ws ++ name ++ ws2 ++ chapter ++ 58%N :: verse ++ rest.

Section RefParts.
Variable U : Unicode.

(** What the parts of a reference are, each run as long as it can be. *)
Definition ref_parts (d ws name ws2 chapter verse : text) : Prop :=
  (forall t, opt_numeral (d ++ ws ++ name ++ t) = d) /\
  Forall (fun c => is_space c = true) ws /\
  Forall (fun c => is_ascii_letter c = true) name /\ name <> [] /\
  stops is_space name /\
  Forall (fun c => is_space c = true) ws2 /\ ws2 <> [] /\
  stops is_ascii_letter ws2 /\
  Forall (fun c => is_digit U c = true) chapter /\ chapter <> [] /\
  stops is_space chapter /\
  Forall (fun c => is_digit U c = true) verse /\ verse <> [].
End RefParts.

(** A record of the plain-text commentary parser: [source] and [content],
    no [reference], and the four fields of a reference together or not at
    all. *)
Definition plain_record (source : text) (e : entry) : Prop :=
  field e "source" = Some (VStr source) /\
  (exists s, field e "content" = Some (VStr s)) /\
  field e "reference" = None /\
  ((field e "book" = None /\ field e "chapter" = None /\
    field e "verse_start" = None /\ field e "verse_end" = None) \/
   (exists book chapter verse_start verse_end,
      field e "book" = Some (VStr book) /\
      field e "chapter" = Some (VInt chapter) /\
      field e "verse_start" = Some (VInt verse_start) /\
      field e "verse_end" = Some (VInt verse_end))).

(** No match of the pattern starts within [pre], [rest] being what follows. *)
Fixpoint no_match_in (re : text -> option text) (pre rest : text) : bool :=
  match pre with
  | [] => true
  | _ :: pre' =>
      match re (pre ++ rest) with
      | Some _ => false
      | None => no_match_in re pre' rest
      end
  end.

(** *** Examples *)

(** A plain-text commentary of one section. *)
Definition john_note : text := txt "See John 3:16 on the lord".

(** The records [_process_txt_commentary] makes of it. *)
Definition john_note_entries : list entry :=
  [ [ (txt "source", VStr (txt "S"));
      (txt "content", VStr (txt "See on the LORD"));
      (txt "book", VStr (txt " John"));
      (txt "chapter", VInt 3);
      (txt "verse_start", VInt 16);
      (txt "verse_end", VInt 16) ] ].

(** One entry with its content and a whole reference. *)
Definition john_commentary_doc : soup :=
  [ Tag (txt "commentary") []
      [ Tag (txt "entry") []
          [ Tag (txt "content") [] [ NavigableString (txt "For God so loved") ];
            Tag (txt "reference")
                [ (txt "book", txt "John"); (txt "chapter", txt "3");
                  (txt "verse_start", txt "16") ] [] ] ] ].

(** The record [_process_xml_commentary] makes of it. *)
Definition john_commentary_entry : entry :=
  [ (txt "source", VStr (txt "S"));
    (txt "content", VStr (txt "For God so loved"));
    (txt "tradition", VStr (txt "unknown"));
    (txt "book", VStr (txt "John"));
    (txt "chapter", VInt 3);
    (txt "verse_start", VInt 16);
    (txt "verse_end", VInt 16) ].

(** A chapter that gives verse 1 twice. *)
Definition repeated_verse_doc : soup :=
  [ Tag (txt "bible") []
      [ Tag (txt "book") [ (txt "name", txt "Genesis") ]
          [ Tag (txt "chapter") [ (txt "number", txt "1") ]
                [ verse_tag "1" "In the beginning"; verse_tag "1" "At first" ] ] ] ].

(** The JSON text of an array of one note, quotes written as U+0022. *)
Definition note_json : text :=
  txt "[{" ++ 34%N :: txt "content" ++ 34%N :: txt ": " ++ 34%N :: txt "the lord"
  ++ 34%N :: txt ", " ++ 34%N :: txt "page" ++ 34%N :: txt ": 7}]".

Definition note_item : pyval :=
  VDict [ (txt "content", VStr (txt "the lord")); (txt "page", VInt 7) ].

(** A decoder that knows this document. *)
Definition loads_note (content : text) : option pyval :=
  if text_eqb content note_json then Some (VList [note_item]) else None.

(** The record [_process_json_commentary] makes of the note. *)
Definition note_entry : entry :=
  [ (txt "content", VStr (txt "the LORD")); (txt "page", VInt 7);
    (txt "source", VStr (txt "S")) ].

(** * Properties *)

(** ** Dictionaries *)

Section DictFacts.
Variables K V : Type.
Variable K_dec : forall a b : K, {a = b} + {a <> b}.

Lemma dict_get_set_same (d : dict K V) k v :
  dict_get K_dec (dict_set K_dec d k v) k = Some v.
Proof.
  induction d as [|[k' v'] d IH]; simpl.
  - destruct (K_dec k k); congruence.
  - destruct (K_dec k' k) as [->|Hne]; simpl.
    + destruct (K_dec k k); congruence.
    + destruct (K_dec k' k); congruence.
Qed.

Lemma dict_get_set_other (d : dict K V) k k' v :
  k <> k' -> dict_get K_dec (dict_set K_dec d k v) k' = dict_get K_dec d k'.
Proof.
  intros Hne. induction d as [|[k0 v0] d IH]; simpl.
  - destruct (K_dec k k'); congruence.
  - destruct (K_dec k0 k) as [->|Hk]; simpl.
    + destruct (K_dec k k'); congruence.
    + destruct (K_dec k0 k'); congruence.
Qed.

Lemma dict_get_or_set_same (d : dict K V) k v dflt :
  dict_get_or K_dec (dict_set K_dec d k v) k dflt = v.
Proof. unfold dict_get_or. now rewrite dict_get_set_same. Qed.

Lemma dict_get_or_set_other (d : dict K V) k k' v dflt :
  k <> k' ->
  dict_get_or K_dec (dict_set K_dec d k v) k' dflt = dict_get_or K_dec d k' dflt.
Proof. intros. unfold dict_get_or. now rewrite dict_get_set_other. Qed.

Lemma dict_get_In (d : dict K V) k v :
  dict_get K_dec d k = Some v -> In (k, v) d.
Proof.
  induction d as [|[k' v'] d IH]; simpl; [discriminate|].
  destruct (K_dec k' k) as [->|]; intros H.
  - injection H as ->. now left.
  - right. auto.
Qed.

Lemma dict_get_NoDup (d : dict K V) k v :
  NoDup (map fst d) -> In (k, v) d -> dict_get K_dec d k = Some v.
Proof.
  induction d as [|[k' v'] d IH]; simpl; [tauto|].
  intros Hnd [Heq|Hin]; inversion Hnd as [|? ? Hnot Hnd']; subst.
  - injection Heq as -> ->. destruct (K_dec k k); congruence.
  - destruct (K_dec k' k) as [->|]; [|auto].
    exfalso. apply Hnot. now apply (in_map fst) in Hin.
Qed.
End DictFacts.

(** ** The cleaners on the texts of the claims *)

(** C9: [clean_bible_text] can return a text that ends with a space although
    [normalize_text] trims: on "John 3:16" the verse-marker rewrite puts the
    token "[3:16] " at the end after the trim, and the punctuation step
    leaves its final space, so the value returned is "John [3:16] ". *)
Theorem clean_bible_text_trailing_space : forall U : Unicode,
  normalize_text U (txt "John 3:16") = txt "John 3:16" /\
  clean_bible_text U (txt "John 3:16") = txt "John [3:16] " /\
  last (clean_bible_text U (txt "John 3:16")) 0%N = 32%N.
Proof. intros U. vm_compute. repeat split; reflexivity. Qed.

(** C10: [normalize_text] can return a text with two consecutive spaces:
    whitespace is collapsed before bracketed spans are removed, and on
    "a [x] b" the result is "a  b". *)
Theorem normalize_text_double_space : forall U : Unicode,
  normalize_text U (txt "a [x] b") = txt "a  b".
Proof. intros U. vm_compute. reflexivity. Qed.

(** C1, as stated, fails: the second pass over "John 3:16" removes the
    bracketed token the first pass wrote. *)
Lemma clean_bible_text_second_pass : forall U : Unicode,
  clean_bible_text U (clean_bible_text U (txt "John 3:16")) = txt "John".
Proof. intros U. vm_compute. reflexivity. Qed.

Lemma clean_bible_text_not_idempotent :
  ~ (forall (U : Unicode) (x : text),
       clean_bible_text U (clean_bible_text U x) = clean_bible_text U x).
Proof.
  intros H. specialize (H ascii_only (txt "John 3:16")).
  vm_compute in H. discriminate H.
Qed.

(** ** The plain-text scripture parser *)

Section PlainTextFacts.
Variable U : Unicode.

Lemma verse_at_txt_verse bible_data bible_data' m book chapter verse :
  txt_verse U bible_data m = Ok bible_data' ->
  verse_at bible_data' book chapter verse =
  if has_key U (book, chapter, verse) m
  then Some (clean_bible_text U (group 4 m))
  else verse_at bible_data book chapter verse.
Proof.
  unfold has_key, match_key, verse_at, txt_verse, bind.
  set (b := strip (group 1 m)).
  destruct (int_of_text U (group 2 m)) as [c|]; [|discriminate].
  destruct (int_of_text U (group 3 m)) as [v|]; [|discriminate].
  intros H. injection H as <-.
  destruct (key_dec (b, c, v) (book, chapter, verse)) as [Heq|Hne].
  - injection Heq as -> -> ->.
    now rewrite !dict_get_or_set_same, dict_get_set_same.
  - destruct (text_eq_dec b book) as [->|Hb].
    + rewrite dict_get_or_set_same.
      destruct (Z.eq_dec c chapter) as [->|Hc].
      * rewrite dict_get_or_set_same.
        rewrite dict_get_set_other; [reflexivity|congruence].
      * now rewrite dict_get_or_set_other.
    + now rewrite dict_get_or_set_other.
Qed.

Lemma verse_at_fold ms : forall bible_data bible_data' book chapter verse,
  for_each ms (txt_verse U) bible_data = Ok bible_data' ->
  verse_at bible_data' book chapter verse =
  match last_with_key U (book, chapter, verse) ms with
  | Some m => Some (clean_bible_text U (group 4 m))
  | None => verse_at bible_data book chapter verse
  end.
Proof.
  induction ms as [|m ms IH]; intros bible_data bible_data' book chapter verse H;
    simpl in H.
  - now injection H as <-.
  - unfold bind in H.
    destruct (txt_verse U bible_data m) as [bible_data1|] eqn:H1; [|discriminate].
    rewrite (IH _ _ book chapter verse H). simpl.
    destruct (last_with_key U (book, chapter, verse) ms); [reflexivity|].
    rewrite (verse_at_txt_verse _ _ _ book chapter verse H1).
    now destruct (has_key U (book, chapter, verse) m).
Qed.
End PlainTextFacts.

(** C8: in the corpus [_process_txt_bible] returns, the text stored under a
    (book, chapter, verse) key is the cleaned body of the last match of the
    scan that carries this key, whatever earlier matches with the same key
    held; a key no match carries is absent.  (The parser returns unless
    [int()] refuses the digits of a match, which it does beyond 4300
    digits.) *)
Theorem txt_bible_last_write_wins :
  forall (U : Unicode) (content : text) (bible_data : corpus text),
  _process_txt_bible U content = Ok bible_data ->
  forall book chapter verse,
    verse_at bible_data book chapter verse =
    option_map (fun m => clean_bible_text U (group 4 m))
      (last_with_key U (book, chapter, verse)
         (finditer (re_book_chapter_verse U) content)).
Proof.
  intros U content bible_data H book chapter verse.
  unfold _process_txt_bible in H.
  rewrite (verse_at_fold U _ _ _ book chapter verse H).
  now destruct (last_with_key U (book, chapter, verse) _).
Qed.

Lemma txt_bible_last_write_wins_john :
  _process_txt_bible ascii_only (txt "John 3:16 alpha John 3:16 beta")
    = Ok [ (txt "John", [ (3%Z, [ (16%Z, txt "beta") ]) ]) ] /\
  verse_at [ (txt "John", [ (3%Z, [ (16%Z, txt "beta") ]) ]) ] (txt "John") 3 16
    = option_map (fun m => clean_bible_text ascii_only (group 4 m))
        (last_with_key ascii_only (txt "John", 3%Z, 16%Z)
           (finditer (re_book_chapter_verse ascii_only)
              (txt "John 3:16 alpha John 3:16 beta"))) /\
  option_map (fun m => clean_bible_text ascii_only (group 4 m))
    (last_with_key ascii_only (txt "John", 3%Z, 16%Z)
       (finditer (re_book_chapter_verse ascii_only)
          (txt "John 3:16 alpha John 3:16 beta")))
    = Some (txt "beta").
Proof.
  refine (conj eq_refl (conj _ eq_refl)).
  exact (txt_bible_last_write_wins ascii_only (txt "John 3:16 alpha John 3:16 beta")
           [ (txt "John", [ (3%Z, [ (16%Z, txt "beta") ]) ]) ] eq_refl
           (txt "John") 3%Z 16%Z).
Defined.

(** ** Alignment: the rows *)

Lemma in_add_ref all_refs r x :
  In x (add_ref all_refs r) <-> In x all_refs \/ x = r.
Proof.
  unfold add_ref. destruct (in_dec verse_ref_dec r all_refs) as [Hin|Hnot].
  - split; [tauto|]. intros [H| ->]; assumption.
  - rewrite in_app_iff. simpl. intuition congruence.
Qed.

Lemma NoDup_add_ref all_refs r : NoDup all_refs -> NoDup (add_ref all_refs r).
Proof.
  intros Hnd. unfold add_ref.
  destruct (in_dec verse_ref_dec r all_refs) as [Hin|Hnot]; [assumption|].
  induction Hnd as [|x l Hx Hl IH]; simpl.
  - constructor; [tauto|constructor].
  - constructor.
    + rewrite in_app_iff. simpl. intros [H|[H|[]]]; [tauto|].
      apply Hnot. now left.
    + apply IH. intros H. apply Hnot. now right.
Qed.

Lemma refs_of_chapter_spec book chapter verses : forall acc,
  (NoDup acc -> NoDup (refs_of_chapter book chapter verses acc)) /\
  forall x, In x (refs_of_chapter book chapter verses acc) <->
            In x acc \/ exists verse body,
                          In (verse, body) verses /\ x = mk_ref book chapter verse.
Proof.
  unfold refs_of_chapter.
  induction verses as [|[v t] verses IH]; intros acc; simpl.
  - split; [auto|]. intros x. split; [auto|].
    intros [H|(? & ? & [] & _)]; assumption.
  - destruct (IH (add_ref acc (mk_ref book chapter v))) as [Hnd Hin].
    split.
    + intros H. apply Hnd. now apply NoDup_add_ref.
    + intros x. rewrite Hin, in_add_ref. split.
      * intros [[H| ->]|(v' & t' & H & ->)]; eauto 6.
      * intros [H|(v' & t' & [Heq|H] & ->)]; eauto 6.
        injection Heq as -> ->. auto.
Qed.

Lemma refs_of_book_spec book chapters : forall acc,
  (NoDup acc -> NoDup (refs_of_book book chapters acc)) /\
  forall x, In x (refs_of_book book chapters acc) <->
            In x acc \/ exists chapter verses verse body,
                          In (chapter, verses) chapters /\
                          In (verse, body) verses /\ x = mk_ref book chapter verse.
Proof.
  unfold refs_of_book.
  induction chapters as [|[c vs] chapters IH]; intros acc; simpl.
  - split; [auto|]. intros x. split; [auto|].
    intros [H|(? & ? & ? & ? & [] & _)]; assumption.
  - destruct (IH (refs_of_chapter book c vs acc)) as [Hnd Hin].
    destruct (refs_of_chapter_spec book c vs acc) as [Hnd0 Hin0].
    split; [auto|].
    intros x. rewrite Hin, Hin0. split.
    + intros [[H|(v & t & H & ->)]|(c' & vs' & v & t & H & H' & ->)]; eauto 10.
    + intros [H|(c' & vs' & v & t & [Heq|H] & H' & ->)]; eauto 10.
      injection Heq as -> ->. eauto 10.
Qed.

Lemma refs_of_bible_spec bible_data : forall acc,
  (NoDup acc -> NoDup (refs_of_bible bible_data acc)) /\
  forall x, In x (refs_of_bible bible_data acc) <->
            In x acc \/ exists book chapters chapter verses verse body,
                          In (book, chapters) bible_data /\
                          In (chapter, verses) chapters /\
                          In (verse, body) verses /\ x = mk_ref book chapter verse.
Proof.
  unfold refs_of_bible.
  induction bible_data as [|[b cs] bible_data IH]; intros acc; simpl.
  - split; [auto|]. intros x. split; [auto|].
    intros [H|(? & ? & ? & ? & ? & ? & [] & _)]; assumption.
  - destruct (IH (refs_of_book b cs acc)) as [Hnd Hin].
    destruct (refs_of_book_spec b cs acc) as [Hnd0 Hin0].
    split; [auto|].
    intros x. rewrite Hin, Hin0. split.
    + intros [[H|(c & vs & v & t & H & H' & ->)]
             |(b' & cs' & c & vs & v & t & H & H' & H'' & ->)]; eauto 12.
    + intros [H|(b' & cs' & c & vs & v & t & [Heq|H] & H' & H'' & ->)]; eauto 12.
      injection Heq as -> ->. eauto 12.
Qed.

Lemma collect_refs_fold bibles : forall acc,
  (NoDup acc -> NoDup (fold_left (fun a tb => refs_of_bible (snd tb) a) bibles acc)) /\
  forall x, In x (fold_left (fun a tb => refs_of_bible (snd tb) a) bibles acc) <->
            In x acc \/ in_corpora bibles x.
Proof.
  unfold in_corpora.
  induction bibles as [|[t bd] bibles IH]; intros acc; simpl.
  - split; [auto|]. intros x. split; [auto|].
    intros [H|(? & ? & ? & ? & ? & ? & ? & ? & [] & _)]; assumption.
  - destruct (IH (refs_of_bible bd acc)) as [Hnd Hin].
    destruct (refs_of_bible_spec bd acc) as [Hnd0 Hin0].
    split; [auto|].
    intros x. rewrite Hin, Hin0. split.
    + intros [[H|(b & cs & c & vs & v & tx & H & H' & H'' & ->)]
             |(t' & bd' & b & cs & c & vs & v & tx & H & H' & H'' & H3 & ->)].
      * auto.
      * right. exists t, bd, b, cs, c, vs, v, tx. auto 6.
      * right. exists t', bd', b, cs, c, vs, v, tx. auto 6.
    + intros [H|(t' & bd' & b & cs & c & vs & v & tx & [Heq|H] & H' & H'' & H3 & ->)].
      * auto.
      * injection Heq as -> ->. left. right. exists b, cs, c, vs, v, tx. auto.
      * right. exists t', bd', b, cs, c, vs, v, tx. auto 6.
Qed.

Lemma collect_refs_spec bibles :
  NoDup (collect_refs bibles) /\
  forall x, In x (collect_refs bibles) <-> in_corpora bibles x.
Proof.
  destruct (collect_refs_fold bibles []) as [Hnd Hin]. split.
  - apply Hnd. constructor.
  - intros x. unfold collect_refs. rewrite Hin. simpl. tauto.
Qed.

(** ** Alignment: the columns *)

Lemma Forall2_compose {A} (R1 R2 R : A -> A -> Prop) l1 : forall l2 l3,
  (forall a b c, R1 a b -> R2 b c -> R a c) ->
  Forall2 R1 l1 l2 -> Forall2 R2 l2 l3 -> Forall2 R l1 l3.
Proof.
  induction l1 as [|a l1 IH]; intros l2 l3 HR H12 H23.
  - inversion H12; subst. inversion H23; subst. constructor.
  - inversion H12 as [|? b ? l2' Hab H12']; subst.
    inversion H23 as [|? c ? l3' Hbc H23']; subst.
    constructor; eauto.
Qed.

Lemma Forall2_refl_on {A} (R : A -> A -> Prop) l :
  (forall a, R a a) -> Forall2 R l l.
Proof. intros HR. induction l; constructor; auto. Qed.

Lemma Forall2_In_right {A B} (R : A -> B -> Prop) l1 l2 b :
  Forall2 R l1 l2 -> In b l2 -> exists a, In a l1 /\ R a b.
Proof.
  induction 1 as [|x y l1 l2 Hxy H IH]; simpl; [tauto|].
  intros [<-|Hin].
  - exists x. auto.
  - destruct (IH Hin) as (a & Ha & HR). exists a. auto.
Qed.

Lemma Forall2_same_refs (R : row -> row -> Prop) df df' :
  (forall rw rw', R rw rw' -> row_ref rw' = row_ref rw) ->
  Forall2 R df df' -> map row_ref df' = map row_ref df.
Proof.
  intros HR. induction 1 as [|x y l1 l2 Hxy H IH]; simpl; [reflexivity|].
  f_equal; auto.
Qed.

Lemma assign_Forall2 name (Q : row -> text -> Prop) df cells :
  Forall2 Q df cells -> Forall2 (assigned name Q) df (assign df name cells).
Proof.
  unfold assign. induction 1 as [|rw c df cells Hq H IH]; simpl; constructor.
  - split; [reflexivity|]. exists c. auto.
  - exact IH.
Qed.

Lemma Forall2_map_right {A B} (g : A -> B) l :
  Forall2 (fun a b => b = g a) l (map g l).
Proof. induction l; simpl; constructor; auto. Qed.

Lemma text_name_inj a b : txt "text_" ++ a = txt "text_" ++ b -> a = b.
Proof. apply app_inv_head. Qed.

Lemma commentary_name_inj a b :
  txt "commentary_" ++ a = txt "commentary_" ++ b -> a = b.
Proof. apply app_inv_head. Qed.

Lemma text_name_not_commentary a b : txt "text_" ++ a <> txt "commentary_" ++ b.
Proof. unfold txt. simpl. discriminate. Qed.

Lemma apply_rows_ok f df : forall cells,
  apply_rows f df = Ok cells -> Forall2 (fun rw c => f rw = Ok c) df cells.
Proof.
  induction df as [|rw df IH]; intros cells Hok; simpl in *.
  - injection Hok as <-. constructor.
  - unfold bind in Hok. destruct (f rw) as [c|] eqn:Hc; [|discriminate].
    destruct (apply_rows f df) as [cs|]; [|discriminate].
    injection Hok as <-. constructor; auto.
Qed.

(** A column that was set: the frame had a row, and every row got its
    cell. *)
Lemma set_column_spec df df' name f :
  set_column df name f = Ok df' ->
  df <> [] /\ df' <> [] /\
  Forall2 (assigned name (fun rw c => f rw = Ok c)) df df'.
Proof.
  unfold set_column, bind. intros Hok.
  destruct (apply_rows f df) as [cells|] eqn:Hcells; [|discriminate].
  destruct df as [|rw df]; [discriminate|]. injection Hok as <-.
  apply apply_rows_ok in Hcells. split; [discriminate|]. split.
  - inversion Hcells; subst. discriminate.
  - now apply assign_Forall2.
Qed.

Lemma set_column_returns df name f :
  df <> [] -> (forall rw, exists c, f rw = Ok c) ->
  exists df', set_column df name f = Ok df' /\ df' <> [].
Proof.
  intros Hdf Hf. unfold set_column.
  assert (Hcells : exists cells, apply_rows f df = Ok cells).
  { clear Hdf. induction df as [|rw df [cells IH]]; simpl; [eauto|].
    destruct (Hf rw) as [c ->]. rewrite IH. simpl. eauto. }
  destruct Hcells as [cells Hcells]. rewrite Hcells. simpl.
  destruct df as [|rw df]; [congruence|].
  eexists. split; [reflexivity|].
  apply apply_rows_ok in Hcells. inversion Hcells; subst. discriminate.
Qed.

Lemma for_each_returns {A S} (I : S -> Prop) (body : S -> A -> result S) xs :
  (forall x st, In x xs -> I st -> exists st', body st x = Ok st' /\ I st') ->
  forall st, I st -> exists st', for_each xs body st = Ok st' /\ I st'.
Proof.
  induction xs as [|x xs IH]; intros Hbody st Hst; simpl.
  - eauto.
  - destruct (Hbody x st (or_introl eq_refl) Hst) as (st1 & -> & H1). simpl.
    apply IH; [|exact H1]. intros y st' Hy. apply Hbody. now right.
Qed.

(** On a frame with rows every text column can be set. *)
Lemma add_translations_return bibles df :
  df <> [] ->
  exists df', for_each bibles add_translation df = Ok df' /\ df' <> [].
Proof.
  intros Hdf. apply (for_each_returns (fun d : frame => d <> [])); [|exact Hdf].
  intros tb st _ Hst. unfold add_translation.
  apply set_column_returns; [exact Hst|]. intros rw. eauto.
Qed.

Lemma add_translations_spec bibles : forall df df',
  NoDup (map fst bibles) ->
  for_each bibles add_translation df = Ok df' ->
  Forall2 (fun rw rw' =>
             keeps (map (fun tb => txt "text_" ++ fst tb) bibles) rw rw' /\
             forall translation bible_data,
               In (translation, bible_data) bibles ->
               column rw' (txt "text_" ++ translation) =
               Some (lookup_text bible_data (row_ref rw)))
          df df'.
Proof.
  induction bibles as [|[t bd] bibles IH]; intros df df' Hnd Hok; simpl in Hok.
  - injection Hok as <-. apply Forall2_refl_on.
    intros rw. split; [split; auto|]. intros ? ? [].
  - inversion Hnd as [|? ? Hnot Hnd']; subst.
    unfold bind in Hok.
    destruct (add_translation df (t, bd)) as [df1|] eqn:H1; [|discriminate].
    unfold add_translation in H1. simpl in H1.
    apply set_column_spec in H1. destruct H1 as (_ & _ & H1).
    eapply Forall2_compose; [|exact H1|apply (IH _ _ Hnd' Hok)].
    simpl. intros rw rw1 rw' (Href1 & c & Hc & Hcols) ((Href & Hkeep) & Hcol).
    injection Hc as <-.
    assert (Hother : forall name, name <> txt "text_" ++ t ->
                                  column rw1 name = column rw name).
    { intros name Hne. unfold column. rewrite Hcols.
      apply dict_get_set_other. intros Heq. apply Hne. symmetry. exact Heq. }
    split; [split|].
    + congruence.
    + intros name Hname. rewrite Hkeep.
      * apply Hother. intros Heq. apply Hname. simpl. left. symmetry. exact Heq.
      * intros Hin. apply Hname. simpl. right. exact Hin.
    + intros t' bd' [Heq|Hin].
      * injection Heq as <- <-. rewrite Hkeep.
        -- unfold column. rewrite Hcols. apply dict_get_set_same.
        -- rewrite in_map_iff. intros ([t2 bd2] & Heq & Hin). simpl in Heq.
           apply text_name_inj in Heq. subst t2.
           apply Hnot. now apply (in_map fst) in Hin.
      * rewrite (Hcol _ _ Hin). now rewrite Href1.
Qed.

Lemma in_py_range start stop v :
  In v (py_range start stop) <-> (start <= v < stop)%Z.
Proof.
  unfold py_range. rewrite in_map_iff. split.
  - intros (i & <- & Hi). apply in_seq in Hi. lia.
  - intros Hv. exists (Z.to_nat (v - start)). split; [lia|].
    apply in_seq. lia.
Qed.

Lemma NoDup_py_range start stop : NoDup (py_range start stop).
Proof.
  unfold py_range. generalize (Z.to_nat (stop - start)) as n.
  generalize 0%nat as i. intros i n. revert i.
  induction n as [|n IH]; intros i; simpl; constructor.
  - rewrite in_map_iff. intros (j & Heq & Hj). apply in_seq in Hj. lia.
  - apply IH.
Qed.

Lemma hits_key book chapter kb kc k verse :
  py_hash book = Ok kb -> py_hash chapter = Ok kc ->
  hits book chapter k verse = true <-> (kb, kc, verse) = k.
Proof.
  intros Hb Hc. destruct k as [[kb' kc'] v']. unfold hits, same_key. simpl.
  rewrite Hb, Hc.
  destruct (hkey_dec kb kb') as [->|Hkb]; destruct (hkey_dec kc kc') as [->|Hkc];
    simpl; try (split; [discriminate|congruence]).
  rewrite Z.eqb_eq. split; congruence.
Qed.

Lemma add_verses_spec e book chapter verses : forall m m',
  NoDup verses ->
  for_each verses (add_verse e book chapter) m = Ok m' ->
  forall k,
    dict_get_or comm_key_dec m' k [] =
    dict_get_or comm_key_dec m k []
    ++ (if existsb (hits book chapter k) verses then [entry_content e] else []).
Proof.
  induction verses as [|v verses IH]; intros m m' Hnd Hok k; simpl in *.
  - injection Hok as <-. now rewrite app_nil_r.
  - inversion Hnd as [|? ? Hnot Hnd']; subst.
    unfold add_verse at 1 in Hok. unfold bind in Hok.
    destruct (py_hash book) as [kb|] eqn:Hb; [|discriminate].
    destruct (py_hash chapter) as [kc|] eqn:Hc; [|discriminate].
    unfold py_getitem in Hok.
    destruct (dict_get text_eq_dec e (txt "content")) as [content|] eqn:Hcontent;
      [|discriminate].
    rewrite (IH _ _ Hnd' Hok k).
    assert (Hcontent' : entry_content e = content).
    { unfold entry_content, dict_get_or. now rewrite Hcontent. }
    destruct (hits book chapter k v) eqn:Hhit; simpl.
    + apply (hits_key _ _ _ _ _ _ Hb Hc) in Hhit. subst k.
      rewrite dict_get_or_set_same, Hcontent'.
      replace (existsb (hits book chapter (kb, kc, v)) verses) with false.
      * now rewrite app_nil_r.
      * symmetry. apply not_true_is_false. intros Hex.
        apply existsb_exists in Hex. destruct Hex as (v' & Hin & Hhit).
        apply (hits_key _ _ _ _ _ _ Hb Hc) in Hhit. congruence.
    + rewrite dict_get_or_set_other; [reflexivity|].
      intros Heq. apply (hits_key _ _ _ _ _ _ Hb Hc) in Heq. congruence.
Qed.

Lemma covers_key_range e book chapter verse_start start stop k :
  dict_get text_eq_dec e (txt "book") = Some book ->
  dict_get text_eq_dec e (txt "chapter") = Some chapter ->
  dict_get text_eq_dec e (txt "verse_start") = Some verse_start ->
  py_succ (dict_get_or text_eq_dec e (txt "verse_end") verse_start) = Ok stop ->
  py_index verse_start = Ok start ->
  existsb (hits book chapter k) (py_range start stop) = covers_key k e.
Proof.
  intros Hb Hc Hs Hstop Hstart. unfold covers_key. rewrite Hb, Hc, Hs.
  assert (H1 : int_field verse_start = Some start).
  { destruct verse_start; simpl in *; congruence. }
  assert (H2 : int_field (dict_get_or text_eq_dec e (txt "verse_end") verse_start)
               = Some (stop - 1)%Z).
  { destruct (dict_get_or text_eq_dec e (txt "verse_end") verse_start);
      simpl in *; try discriminate; injection Hstop as <-; f_equal; lia. }
  rewrite H1, H2.
  apply eq_true_iff_eq. rewrite existsb_exists, !andb_true_iff, !Z.leb_le.
  split.
  - intros (v & Hin & Hhit). apply in_py_range in Hin. unfold hits in Hhit.
    rewrite !andb_true_iff, Z.eqb_eq in Hhit. destruct Hhit as [[? ?] ->].
    repeat split; (assumption || lia).
  - intros [[[? ?] ?] ?]. exists (snd k). split.
    + apply in_py_range. lia.
    + unfold hits. rewrite !andb_true_iff, Z.eqb_eq. auto.
Qed.

Lemma add_entry_spec m m' e :
  add_entry m e = Ok m' ->
  forall k,
    dict_get_or comm_key_dec m' k [] =
    dict_get_or comm_key_dec m k []
    ++ (if covers_key k e then [entry_content e] else []).
Proof.
  unfold add_entry. intros Hok k.
  destruct (dict_get text_eq_dec e (txt "book")) as [book|] eqn:Hb.
  2:{ injection Hok as <-. unfold covers_key. rewrite Hb. now rewrite app_nil_r. }
  destruct (dict_get text_eq_dec e (txt "chapter")) as [chapter|] eqn:Hc.
  2:{ injection Hok as <-. unfold covers_key. rewrite Hb, Hc. now rewrite app_nil_r. }
  destruct (dict_get text_eq_dec e (txt "verse_start")) as [verse_start|] eqn:Hs.
  2:{ injection Hok as <-. unfold covers_key. rewrite Hb, Hc, Hs. now rewrite app_nil_r. }
  unfold bind in Hok.
  destruct (py_succ _) as [stop|] eqn:Hstop; [|discriminate].
  destruct (py_index verse_start) as [start|] eqn:Hstart; [|discriminate].
  rewrite (add_verses_spec _ _ _ _ _ _ (NoDup_py_range start stop) Hok k).
  now rewrite (covers_key_range _ _ _ _ _ _ k Hb Hc Hs Hstop Hstart).
Qed.

Lemma add_entries_spec entries : forall m m',
  for_each entries add_entry m = Ok m' ->
  forall k,
    dict_get_or comm_key_dec m' k [] =
    dict_get_or comm_key_dec m k []
    ++ map entry_content (filter (covers_key k) entries).
Proof.
  induction entries as [|e entries IH]; intros m m' Hok k; simpl in *.
  - injection Hok as <-. now rewrite app_nil_r.
  - unfold bind in Hok. destruct (add_entry m e) as [m1|] eqn:H1; [|discriminate].
    rewrite (IH _ _ Hok k), (add_entry_spec _ _ _ H1 k), <- app_assoc.
    now destruct (covers_key k e).
Qed.

Lemma py_join_ok sep l : forall c,
  py_join sep l = Ok c -> c = join_text sep (map str_value l).
Proof.
  induction l as [|v l IH]; intros c Hok; simpl in *.
  - now injection Hok as <-.
  - destruct v; try discriminate. destruct l as [|v' l'].
    + now injection Hok as <-.
    + unfold bind in Hok. destruct (py_join sep (v' :: l')) as [r|] eqn:Hr;
        [|discriminate].
      injection Hok as <-. now rewrite <- (IH r eq_refl).
Qed.

Lemma add_commentary_spec df df' source entries :
  add_commentary df (source, entries) = Ok df' ->
  Forall2 (assigned (txt "commentary_" ++ source)
             (fun rw c => c = joined_contents entries (row_ref rw)))
          df df'.
Proof.
  unfold add_commentary. simpl. unfold bind. intros Hok.
  destruct (for_each entries add_entry []) as [m|] eqn:Hm; [|discriminate].
  apply set_column_spec in Hok. destruct Hok as (_ & _ & Hcells).
  eapply Forall2_impl; [|exact Hcells].
  intros rw rw' (Href & c & Hc & Hcols). split; [exact Href|]. exists c.
  split; [|exact Hcols].
  unfold commentary_cell in Hc. apply py_join_ok in Hc.
  rewrite (add_entries_spec _ _ _ Hm (row_key rw)) in Hc. simpl in Hc.
  subst c. unfold joined_contents, content_text, covers, row_key.
  now rewrite map_map.
Qed.

Lemma add_commentaries_spec commentaries : forall df df',
  NoDup (map fst commentaries) ->
  for_each commentaries add_commentary df = Ok df' ->
  Forall2 (fun rw rw' =>
             keeps (map (fun se => txt "commentary_" ++ fst se) commentaries) rw rw' /\
             forall source entries,
               In (source, entries) commentaries ->
               column rw' (txt "commentary_" ++ source) =
               Some (joined_contents entries (row_ref rw)))
          df df'.
Proof.
  induction commentaries as [|[s es] commentaries IH]; intros df df' Hnd Hok;
    simpl in Hok.
  - injection Hok as <-. apply Forall2_refl_on.
    intros rw. split; [split; auto|]. intros ? ? [].
  - inversion Hnd as [|? ? Hnot Hnd']; subst.
    unfold bind in Hok.
    destruct (add_commentary df (s, es)) as [df1|] eqn:H1; [|discriminate].
    eapply Forall2_compose;
      [|apply (add_commentary_spec _ _ _ _ H1)|apply (IH _ _ Hnd' Hok)].
    simpl. intros rw rw1 rw' (Href1 & c & -> & Hcols) ((Href & Hkeep) & Hcol).
    assert (Hother : forall name, name <> txt "commentary_" ++ s ->
                                  column rw1 name = column rw name).
    { intros name Hne. unfold column. rewrite Hcols.
      apply dict_get_set_other. intros Heq. apply Hne. symmetry. exact Heq. }
    split; [split|].
    + congruence.
    + intros name Hname. rewrite Hkeep.
      * apply Hother. intros Heq. apply Hname. simpl. left. symmetry. exact Heq.
      * intros Hin. apply Hname. simpl. right. exact Hin.
    + intros s' es' [Heq|Hin].
      * injection Heq as <- <-. rewrite Hkeep.
        -- unfold column. rewrite Hcols. apply dict_get_set_same.
        -- rewrite in_map_iff. intros ([s2 es2] & Heq & Hin). simpl in Heq.
           apply commentary_name_inj in Heq. subst s2.
           apply Hnot. now apply (in_map fst) in Hin.
      * rewrite (Hcol _ _ Hin). now rewrite Href1.
Qed.

(** The frame [create_verse_aligned_dataset] returns, row by row. *)
Lemma aligned_frame_spec bibles commentaries df :
  NoDup (map fst bibles) -> NoDup (map fst commentaries) ->
  create_verse_aligned_dataset bibles commentaries = Ok df ->
  map row_ref df = collect_refs bibles /\
  forall rw, In rw df ->
    (forall translation bible_data,
        In (translation, bible_data) bibles ->
        column rw (txt "text_" ++ translation) =
        Some (lookup_text bible_data (row_ref rw))) /\
    (forall source entries,
        In (source, entries) commentaries ->
        column rw (txt "commentary_" ++ source) =
        Some (joined_contents entries (row_ref rw))).
Proof.
  unfold create_verse_aligned_dataset. cbv zeta. intros Hb Hc Hok.
  set (df0 := map (fun r => {| row_ref := r; row_cols := [] |}) (collect_refs bibles)) in *.
  unfold bind in Hok.
  destruct (for_each bibles add_translation df0) as [df1|] eqn:Hdf1; [|discriminate].
  pose proof (add_translations_spec bibles df0 df1 Hb Hdf1) as H1.
  pose proof (add_commentaries_spec _ _ _ Hc Hok) as H2.
  split.
  - rewrite (Forall2_same_refs _ _ _ (fun _ _ H => proj1 (proj1 H)) H2).
    rewrite (Forall2_same_refs _ _ _ (fun _ _ H => proj1 (proj1 H)) H1).
    unfold df0. rewrite map_map. simpl. apply map_id.
  - intros rw Hin.
    destruct (Forall2_In_right _ _ _ _ H2 Hin) as (rw1 & Hin1 & (Href & Hkeep) & Hcol).
    destruct (Forall2_In_right _ _ _ _ H1 Hin1) as (rw0 & _ & (Href0 & _) & Htext).
    split.
    + intros t bd Ht. rewrite Hkeep.
      * rewrite (Htext _ _ Ht). congruence.
      * rewrite in_map_iff. intros ([s es] & Heq & _).
        symmetry in Heq. now apply text_name_not_commentary in Heq.
    + intros s es Hs. rewrite (Hcol _ _ Hs). now rewrite Href.
Qed.







(** C3: in the row of a key, the commentary column of a source is the
    contents, joined with "; " in record order, of the records of the source
    that carry [book], [chapter] and [verse_start], whose book and chapter
    are those of the key and whose range [[verse_start, verse_end]] holds
    its verse: a record shows in these rows and in no other, and a key no
    record covers gets the empty string. *)
Theorem commentary_range_join :
  forall (bibles : dict text (corpus text))
         (commentaries : dict text (list entry)) (df : frame)
         (source : text) (entries : list entry) (rw : row),
  is_dict bibles -> is_dict commentaries ->
  create_verse_aligned_dataset bibles commentaries = Ok df ->
  In (source, entries) commentaries -> In rw df ->
  column rw (txt "commentary_" ++ source) =
  Some (join_text (txt "; ")
          (map content_text (filter (covers (row_ref rw)) entries))).
Proof.
  intros bibles commentaries df source entries rw Hb Hc Hok Hs Hrw.
  destruct (aligned_frame_spec _ _ _ Hb Hc Hok) as [_ Hrows].
  now apply (Hrows rw Hrw).
Qed.

Lemma commentary_range_join_john :
  is_dict john_bibles /\ is_dict john_commentaries /\
  create_verse_aligned_dataset john_bibles john_commentaries = Ok john_frame /\
  In (txt "S", john_entries) john_commentaries /\
  In (john_row 17 (txt "c") (txt "one; three")) john_frame /\
  column (john_row 17 (txt "c") (txt "one; three")) (txt "commentary_" ++ txt "S") =
  Some (join_text (txt "; ")
          (map content_text
             (filter (covers (row_ref (john_row 17 (txt "c") (txt "one; three"))))
                     john_entries))).
Proof.
  assert (H1 : is_dict john_bibles).
  { unfold is_dict. vm_compute. repeat constructor; simpl; intuition. }
  assert (H2 : is_dict john_commentaries).
  { unfold is_dict. vm_compute. repeat constructor; simpl; intuition. }
  assert (H3 : create_verse_aligned_dataset john_bibles john_commentaries
               = Ok john_frame) by (vm_compute; reflexivity).
  assert (H4 : In (txt "S", john_entries) john_commentaries) by (left; reflexivity).
  assert (H5 : In (john_row 17 (txt "c") (txt "one; three")) john_frame)
    by (right; right; left; reflexivity).
  refine (conj H1 (conj H2 (conj H3 (conj H4 (conj H5 _))))).
  exact (commentary_range_join john_bibles john_commentaries john_frame
           (txt "S") john_entries _ H1 H2 H3 H4 H5).
Defined.

(** ** The parsers and the exceptions they let through *)

Lemma for_each_raises {A S} (body : S -> A -> result S) x xs :
  In x xs -> (forall st, exists e, body st x = Raise e) ->
  forall st, exists e, for_each xs body st = Raise e.
Proof.
  intros Hin Hx. induction xs as [|y xs IH]; simpl in *; [tauto|].
  intros st. destruct Hin as [->|Hin].
  - destruct (Hx st) as [e He]. exists e. now rewrite He.
  - destruct (body st y) as [st'|e]; simpl; [apply (IH Hin)|eauto].
Qed.

Section MarkupFacts.
Variable U : Unicode.

Lemma xml_verse_raises verse_elem :
  lacks_number verse_elem -> forall st, exists e, xml_verse U st verse_elem = Raise e.
Proof.
  intros H st. exists TypeError. unfold xml_verse. now rewrite H.
Qed.

Lemma xml_chapter_raises chapter_elem :
  (lacks_number chapter_elem \/
   exists verse_elem,
     In verse_elem (find_all chapter_elem (txt "verse")) /\ lacks_number verse_elem) ->
  forall st, exists e, xml_chapter U st chapter_elem = Raise e.
Proof.
  intros [H|(v & Hin & Hv)] st; unfold xml_chapter.
  - exists TypeError. now rewrite H.
  - destruct (int_of_attr U _) as [n|e]; simpl; [|eauto].
    destruct (for_each_raises (xml_verse U) v _ Hin (xml_verse_raises v Hv) [])
      as [e He].
    exists e. now rewrite He.
Qed.

Lemma xml_bible_raises doc :
  scripture_defect doc -> exists e, _process_xml_bible U doc = Raise e.
Proof.
  intros (b & c & Hb & Hc & Hdefect). unfold _process_xml_bible.
  apply (for_each_raises (xml_book U) b _ Hb). intros st. unfold xml_book.
  destruct (for_each_raises (xml_chapter U) c _ Hc (xml_chapter_raises c Hdefect) [])
    as [e He].
  exists e. now rewrite He.
Qed.

Lemma xml_commentary_raises doc source :
  commentary_defect doc -> exists e, _process_xml_commentary U doc source = Raise e.
Proof.
  intros (en & Hin & Hnone). unfold _process_xml_commentary.
  apply (for_each_raises (xml_entry U source) en _ Hin). intros st.
  exists AttributeError. unfold xml_entry. now rewrite Hnone.
Qed.
End MarkupFacts.

Lemma defective_bible_doc_defect : scripture_defect defective_bible_doc.
Proof.
  exists (Tag (txt "book") [ (txt "name", txt "Genesis") ]
            [ Tag (txt "chapter") [] [ verse_tag "1" "In the beginning" ];
              Tag (txt "chapter") [ (txt "number", txt "2") ]
                  [ verse_tag "1" "Thus the heavens" ] ]),
         (Tag (txt "chapter") [] [ verse_tag "1" "In the beginning" ]).
  split; [left; reflexivity|]. split; [left; reflexivity|]. left. reflexivity.
Defined.

Lemma defective_commentary_doc_defect : commentary_defect defective_commentary_doc.
Proof.
  exists (Tag (txt "entry") []
            [ Tag (txt "reference")
                  [ (txt "book", txt "John"); (txt "chapter", txt "3");
                    (txt "verse_start", txt "16") ] [] ]).
  split; [left; reflexivity|reflexivity].
Defined.

(** C5, as stated, fails: with one chapter that has no [number] the
    scripture parser returns no corpus at all, and with one entry that has no
    [content] the commentary parser returns no record, the sound siblings
    included. *)
Lemma markup_defect_not_contained :
  ~ (exists U bible_data, _process_xml_bible U defective_bible_doc = Ok bible_data)
  /\
  ~ (exists U entries,
       _process_xml_commentary U defective_commentary_doc (txt "S") = Ok entries).
Proof.
  split.
  - intros (U & b & H). vm_compute in H. discriminate H.
  - intros (U & es & H). vm_compute in H. discriminate H.
Qed.

(** C5, amended: in the markup parsers a defect of one element ends the
    parse of the file: when a chapter or verse element has no [number]
    attribute [_process_xml_bible] raises, and when an entry has no
    [content] element [_process_xml_commentary] raises; no element of the
    file is returned then. *)
Theorem markup_defect_aborts_parse :
  forall (U : Unicode) (doc : soup) (source : text),
  (scripture_defect doc -> exists e, _process_xml_bible U doc = Raise e) /\
  (commentary_defect doc ->
   exists e, _process_xml_commentary U doc source = Raise e).
Proof.
  intros U doc source. split.
  - apply xml_bible_raises.
  - apply xml_commentary_raises.
Qed.

Lemma markup_defect_aborts_parse_docs :
  scripture_defect defective_bible_doc /\
  commentary_defect defective_commentary_doc /\
  (exists e, _process_xml_bible ascii_only defective_bible_doc = Raise e) /\
  (exists e, _process_xml_commentary ascii_only defective_commentary_doc (txt "S")
             = Raise e).
Proof.
  refine (conj defective_bible_doc_defect (conj defective_commentary_doc_defect _)).
  split.
  - exact (proj1 (markup_defect_aborts_parse ascii_only defective_bible_doc (txt "S"))
             defective_bible_doc_defect).
  - exact (proj2 (markup_defect_aborts_parse ascii_only defective_commentary_doc (txt "S"))
             defective_commentary_doc_defect).
Defined.

(** C6: the markup parser keeps a record whose reference gives a chapter and
    no book, with [book], [verse_start] and [verse_end] set to [None]; the
    three keys being present, [create_verse_aligned_dataset] takes the record
    for a reference and raises [TypeError] on [None + 1].  The same record
    without the [book] key is passed over, as the claim says. *)
Theorem partial_reference_breaks_alignment : forall U : Unicode,
  _process_xml_commentary U partial_reference_doc (txt "S")
    = Ok [partial_reference_entry] /\
  create_verse_aligned_dataset john_bibles
    [ (txt "S", [partial_reference_entry]) ] = Raise TypeError /\
  create_verse_aligned_dataset john_bibles
    [ (txt "S", [ [ (txt "content", VStr (txt "On the new birth"));
                    (txt "chapter", VInt 3) ] ]) ]
    = Ok [ john_row 15 (txt "a") []; john_row 16 (txt "b") [];
           john_row 17 (txt "c") []; john_row 18 (txt "d") [] ].
Proof. intros U. repeat split; vm_compute; reflexivity. Qed.

(** C4, as stated, fails: the document "[]" is well-formed JSON, and on the
    empty array it decodes to the scripture parser raises. *)
Lemma json_shape_error_escapes :
  ~ (exists U bible_data,
       _process_json_bible U loads_empty_array (txt "[]") = Ok bible_data).
Proof. intros (U & b & H). vm_compute in H. discriminate H. Qed.

(** C4, amended: what the JSON parsers contain is the decoding error: on a
    content [json.loads] rejects they return the empty corpus and the empty
    list.  A document that decodes to anything but an object makes the
    scripture parser raise, and the exception reaches the caller. *)
Theorem json_decode_error_contained :
  forall (U : Unicode) (json_loads : text -> option pyval) (content source : text),
  (json_loads content = None ->
   _process_json_bible U json_loads content = Ok [] /\
   _process_json_commentary U json_loads content source = Ok []) /\
  (forall data,
     json_loads content = Some data -> (forall d, data <> VDict d) ->
     exists e, _process_json_bible U json_loads content = Raise e).
Proof.
  intros U json_loads content source. split.
  - intros H. unfold _process_json_bible, _process_json_commentary.
    now rewrite H.
  - intros data H Hshape. unfold _process_json_bible. rewrite H.
    unfold json_bible_of.
    destruct data as [| b | z | s | l | d]; simpl; eauto.
    + destruct (is_substring (txt "books") s); simpl; eauto.
    + destruct (existsb (is_vstr (txt "books")) l); simpl; eauto.
    + now destruct (Hshape d).
Qed.

Lemma json_decode_error_contained_brace :
  loads_empty_array (txt "{") = None /\
  _process_json_bible ascii_only loads_empty_array (txt "{") = Ok [] /\
  _process_json_commentary ascii_only loads_empty_array (txt "{") (txt "S") = Ok [].
Proof.
  refine (conj eq_refl _).
  exact (proj1 (json_decode_error_contained ascii_only loads_empty_array
                  (txt "{") (txt "S")) eq_refl).
Defined.

(** ** The scan of [re.sub] *)

Lemma last_or_cons c l : last_or (Some c) l = Some (last (c :: l) 0%N).
Proof. destruct l; reflexivity. Qed.

Lemma sub_from_skip re repl s : forall k prev,
  sub_from re repl k prev s =
  sub_from re repl 0 (last_or prev (firstn k s)) (skipn k s).
Proof.
  induction s as [|c s IH]; intros k prev.
  - destruct k; reflexivity.
  - destruct k as [|k]; [reflexivity|].
    cbn [sub_from firstn skipn]. rewrite IH. f_equal.
    rewrite last_or_cons. reflexivity.
Qed.

(** ** Protected terms *)

Section TermFacts.
Variable U : Unicode.

Lemma casefold_cases a :
  (casefold a = a /\ ~ (65 <= a <= 90)%N /\ a <> 383%N) \/
  (casefold a = (a + 32)%N /\ (65 <= a <= 90)%N) \/
  (casefold a = 115%N /\ a = 383%N).
Proof.
  unfold casefold, in_range.
  destruct (65 <=? a)%N eqn:H1; destruct (a <=? 90)%N eqn:H2;
    destruct (a =? 383)%N eqn:H3; simpl;
    repeat match goal with
           | H : (_ <=? _)%N = true |- _ => apply N.leb_le in H
           | H : (_ <=? _)%N = false |- _ => apply N.leb_gt in H
           | H : (_ =? _)%N = true |- _ => apply N.eqb_eq in H
           | H : (_ =? _)%N = false |- _ => apply N.eqb_neq in H
           end;
    first [ left; split; [reflexivity|split; [lia|assumption]]
          | right; left; split; [reflexivity|lia]
          | right; right; split; [reflexivity|assumption] ].
Qed.

Lemma is_word_letter a :
  (65 <= a <= 90)%N \/ (97 <= a <= 122)%N -> is_word U a = true.
Proof.
  intros H. unfold is_word, is_ascii, is_ascii_letter, in_range.
  replace (a <? 128)%N with true by (symmetry; apply N.ltb_lt; lia).
  destruct H as [H|H].
  - replace (65 <=? a)%N with true by (symmetry; apply N.leb_le; lia).
    replace (a <=? 90)%N with true by (symmetry; apply N.leb_le; lia).
    reflexivity.
  - replace (97 <=? a)%N with true by (symmetry; apply N.leb_le; lia).
    replace (a <=? 122)%N with true by (symmetry; apply N.leb_le; lia).
    now rewrite orb_true_r.
Qed.

Lemma is_word_long_s : is_word U 383%N = true.
Proof. reflexivity. Qed.

(** Characters with one folding are word characters together. *)
Lemma casefold_word a b : same_fold a b -> is_word U a = is_word U b.
Proof.
  unfold same_fold. intros H.
  destruct (casefold_cases a) as [(Ha & Ha1 & Ha2)|[(Ha & Ha1)|(Ha & ->)]];
  destruct (casefold_cases b) as [(Hb & Hb1 & Hb2)|[(Hb & Hb1)|(Hb & ->)]];
  rewrite ?Ha, ?Hb in H; rewrite ?is_word_long_s.
  - now subst.
  - rewrite (is_word_letter a), (is_word_letter b); [reflexivity|lia|lia].
  - subst a. reflexivity.
  - rewrite (is_word_letter a), (is_word_letter b); [reflexivity|lia|lia].
  - rewrite (is_word_letter a), (is_word_letter b); [reflexivity|lia|lia].
  - apply is_word_letter. lia.
  - subst b. reflexivity.
  - symmetry. apply is_word_letter. lia.
  - reflexivity.
Qed.

Lemma word_opt_fold p p' : same_fold_opt p p' -> word_opt U p = word_opt U p'.
Proof.
  destruct p, p'; simpl; try tauto. apply casefold_word.
Qed.

Lemma boundary_fold p p' q q' :
  same_fold_opt p p' -> same_fold_opt q q' -> boundary U p q = boundary U p' q'.
Proof.
  intros Hp Hq. unfold boundary.
  now rewrite (word_opt_fold _ _ Hp), (word_opt_fold _ _ Hq).
Qed.

Lemma ci_prefix_fold term : forall s s',
  Forall2 same_fold s s' -> ci_prefix term s = ci_prefix term s'.
Proof.
  induction term as [|p term IH]; intros s s' H; [reflexivity|].
  destruct H as [|c c' s s' Hc H]; [reflexivity|]. simpl.
  unfold same_fold in Hc. rewrite Hc. f_equal. now apply IH.
Qed.

Lemma hd_error_fold s s' :
  Forall2 same_fold s s' -> same_fold_opt (hd_error s) (hd_error s').
Proof. destruct 1; simpl; auto. Qed.

Lemma firstn_fold n : forall s s',
  Forall2 same_fold s s' -> Forall2 same_fold (firstn n s) (firstn n s').
Proof.
  induction n as [|n IH]; intros s s' H; [constructor|].
  destruct H; simpl; constructor; auto.
Qed.

Lemma skipn_fold n : forall s s',
  Forall2 same_fold s s' -> Forall2 same_fold (skipn n s) (skipn n s').
Proof.
  induction n as [|n IH]; intros s s' H; [exact H|].
  destruct H; simpl; [constructor|auto].
Qed.

Lemma last_fold s s' :
  Forall2 same_fold s s' -> same_fold (last s 0%N) (last s' 0%N).
Proof.
  induction 1 as [|c c' s s' Hc H IH]; [reflexivity|].
  destruct H; [exact Hc|exact IH].
Qed.

Lemma last_opt_fold s s' :
  Forall2 same_fold s s' -> same_fold_opt (last_opt s) (last_opt s').
Proof.
  intros H. pose proof (last_fold _ _ H) as Hl. destruct H; simpl; auto.
Qed.

Lemma re_term_fold term p p' s s' :
  same_fold_opt p p' -> Forall2 same_fold s s' ->
  re_term U term p s = re_term U term p' s'.
Proof.
  intros Hp Hs. unfold re_term. destruct term as [|t0 term]; [reflexivity|].
  rewrite (boundary_fold _ _ _ _ Hp (hd_error_fold _ _ Hs)).
  rewrite (ci_prefix_fold _ _ _ Hs).
  rewrite (boundary_fold (Some (last (firstn (length (t0 :: term)) s) 0%N))
             (Some (last (firstn (length (t0 :: term)) s') 0%N))
             (hd_error (skipn (length (t0 :: term)) s))
             (hd_error (skipn (length (t0 :: term)) s'))).
  - reflexivity.
  - apply last_fold, firstn_fold, Hs.
  - apply hd_error_fold, skipn_fold, Hs.
Qed.

Lemma occurs_fold term p p' s s' :
  same_fold_opt p p' -> Forall2 same_fold s s' ->
  occurs U term p s = occurs U term p' s'.
Proof.
  intros Hp Hs. unfold occurs. now rewrite (re_term_fold term _ _ _ _ Hp Hs).
Qed.

(** What a match of [re_term] tells. *)
Lemma re_term_inv term p s m :
  re_term U term p s = Some m ->
  boundary U p (hd_error s) = true /\ ci_prefix term s = true /\
  S (more m) = length term.
Proof.
  unfold re_term. destruct term as [|t0 term]; [discriminate|].
  destruct (boundary U p (hd_error s)); [|discriminate].
  destruct (ci_prefix (t0 :: term) s); [|discriminate].
  simpl. destruct (boundary U _ _); [|discriminate].
  intros H. injection H as <-. auto.
Qed.

Lemma occurs_inv term p s :
  occurs U term p s = true ->
  boundary U p (hd_error s) = true /\ ci_prefix term s = true.
Proof.
  unfold occurs. destruct (re_term U term p s) as [m|] eqn:H; [|discriminate].
  intros _. apply re_term_inv in H. tauto.
Qed.

(** The text a case-insensitive prefix stands for. *)
Lemma ci_prefix_split term : forall s,
  ci_prefix term s = true ->
  exists mt rest, s = mt ++ rest /\ Forall2 same_fold term mt.
Proof.
  induction term as [|p term IH]; intros s H.
  - exists [], s. split; [reflexivity|constructor].
  - destruct s as [|c s]; [discriminate|]. simpl in H.
    apply andb_true_iff in H. destruct H as [Hc H]. apply N.eqb_eq in Hc.
    destruct (IH _ H) as (mt & rest & -> & Hmt).
    exists (c :: mt), rest. split; [reflexivity|].
    constructor; [|exact Hmt]. unfold same_fold. congruence.
Qed.

Lemma canonical_suffix term a : forall p b,
  canonical U term p (a ++ b) -> canonical U term (last_or p a) b.
Proof.
  induction a as [|c a IH]; intros p b H; [exact H|].
  destruct H as [_ H]. apply IH in H. now rewrite last_or_cons in H.
Qed.

Lemma canonical_at term pre : forall p rest,
  canonical U term p (pre ++ rest) ->
  occurs U term (last_or p pre) rest = true ->
  firstn (length term) rest = term.
Proof.
  intros p rest H. apply canonical_suffix in H. destruct rest; apply H.
Qed.
End TermFacts.

Section TermScan.
Variable U : Unicode.

Lemma term_passes_other t t' :
  In t protected_terms -> In t' protected_terms -> t <> t' ->
  forall rest,
    sub_from (re_term U t) (lit t) 0 (Some (@hd char 0%N t')) (tl t' ++ rest) =
    tl t' ++ sub_from (re_term U t) (lit t) 0 (Some (last t' 0%N)) rest.
Proof.
  intros [<-|[<-|[<-|[<-|[]]]]] [<-|[<-|[<-|[<-|[]]]]] Hne rest;
    try (exfalso; apply Hne; reflexivity).
  all: vm_compute; reflexivity.
Qed.

Lemma canonical_block t t'' :
  In t protected_terms -> In t'' protected_terms ->
  forall p tail,
    canonical U t'' (Some (last t 0%N)) tail -> canonical U t'' p (t ++ tail).
Proof.
  intros [<-|[<-|[<-|[<-|[]]]]] [<-|[<-|[<-|[<-|[]]]]] p tail Htail.
  all: unfold txt in *; cbn [list_ascii_of_string map N_of_ascii app canonical fst] in *.
  all: repeat split; try exact Htail;
       try (intros H; apply occurs_inv in H; destruct H as [Hb Hp];
            vm_compute in Hp; try discriminate Hp; vm_compute in Hb; discriminate Hb).
Qed.

Lemma protected_term_cons t :
  In t protected_terms -> t = hd 0%N t :: tl t.
Proof. intros [<-|[<-|[<-|[<-|[]]]]]; reflexivity. Qed.

Lemma occurs_nil term p : occurs U term p [] = false.
Proof.
  unfold occurs, re_term. destruct term as [|t0 term]; [reflexivity|].
  simpl. now rewrite andb_false_r.
Qed.

Lemma Forall2_fold_length (a b : text) : Forall2 same_fold a b -> length a = length b.
Proof. induction 1; simpl; congruence. Qed.

Lemma term_stage t E :
  In t protected_terms ->
  (forall t', In t' E -> In t' protected_terms /\ t' <> t) ->
  forall n s p_in p_out,
    length s <= n ->
    same_fold_opt p_out p_in ->
    (forall t', In t' E -> canonical U t' p_in s) ->
    Forall2 same_fold (sub_from (re_term U t) (lit t) 0 p_in s) s /\
    forall t', t' = t \/ In t' E ->
               canonical U t' p_out (sub_from (re_term U t) (lit t) 0 p_in s).
Proof.
  intros Ht HE. induction n as [|n IH]; intros s p_in p_out Hlen Hp Hcan.
  - destruct s; [|simpl in Hlen; lia]. simpl. split; [constructor|].
    intros t' _. split; [|exact I]. rewrite occurs_nil. discriminate.
  - destruct s as [|c s']; [simpl; split; [constructor|];
      intros t' _; split; [rewrite occurs_nil; discriminate|exact I]|].
    simpl in Hlen. cbn [sub_from].
    destruct (re_term U t p_in (c :: s')) as [m|] eqn:Hm.
    + destruct (re_term_inv U _ _ _ _ Hm) as (_ & Hpre & Hmore).
      destruct (ci_prefix_split _ _ Hpre) as (mt & rest & Hs & Hmt).
      pose proof (Forall2_fold_length _ _ Hmt) as Hl.
      destruct mt as [|c0 mt']; [rewrite <- Hmore in Hl; discriminate|].
      simpl in Hs. injection Hs as <- ->.
      simpl in Hl. rewrite <- Hmore in Hl. injection Hl as Hl.
      rewrite sub_from_skip.
      rewrite Hl, firstn_app, Nat.sub_diag, firstn_all, app_nil_r.
      rewrite skipn_app, Nat.sub_diag, skipn_all. simpl skipn. simpl app at 2.
      rewrite last_or_cons.
      destruct (IH rest (Some (last (c :: mt') 0%N)) (Some (last t 0%N))) as [IH1 IH2].
      * rewrite length_app in Hlen. lia.
      * simpl. apply (last_fold t (c :: mt')). exact Hmt.
      * intros t' Ht'. specialize (Hcan t' Ht').
        apply (canonical_suffix U t' (c :: mt')) in Hcan. exact Hcan.
      * unfold lit. split.
        -- change (c :: mt' ++ rest) with ((c :: mt') ++ rest).
           apply Forall2_app; assumption.
        -- intros t' Ht'. apply canonical_block.
           ++ exact Ht.
           ++ destruct Ht' as [->|Ht']; [exact Ht|apply HE, Ht'].
           ++ apply IH2, Ht'.
    + destruct (IH s' (Some c) (Some c)) as [IH1 IH2].
      * lia.
      * reflexivity.
      * intros t' Ht'. apply (Hcan t' Ht').
      * split; [constructor; [reflexivity|exact IH1]|].
        intros t' Ht'. split; [|apply IH2, Ht'].
        intros Hocc.
        rewrite (occurs_fold U t' p_out p_in _ (c :: s')) in Hocc;
          [|exact Hp|constructor; [reflexivity|exact IH1]].
        destruct Ht' as [->|Ht'].
        { unfold occurs in Hocc. rewrite Hm in Hocc. discriminate. }
        destruct (HE t' Ht') as [Hin Hne].
        pose proof (proj1 (Hcan t' Ht') Hocc) as Hexact.
        pose proof (firstn_skipn (length t') (c :: s')) as Hs.
        rewrite Hexact in Hs.
        remember (skipn (length t') (c :: s')) as rest eqn:Hrest. clear Hrest.
        destruct t' as [|h t1]; [apply protected_term_cons in Hin; discriminate Hin|].
        simpl in Hs. injection Hs as <- <-.
        pose proof (term_passes_other t (h :: t1) Ht Hin
                      (fun H => Hne (eq_sym H)) rest) as Hpass.
        cbn [hd tl] in Hpass. rewrite Hpass.
        change (h :: t1 ++ ?x) with ((h :: t1) ++ x).
        rewrite firstn_app, firstn_all, Nat.sub_diag, firstn_O. apply app_nil_r.
Qed.

(** The four substitutions of [clean_commentary_text], one after the other. *)
Lemma commentary_terms_canonical x :
  Forall2 same_fold (clean_commentary_text U x) (normalize_text U x) /\
  forall t, In t protected_terms -> canonical U t None (clean_commentary_text U x).
Proof.
  unfold clean_commentary_text. generalize (normalize_text U x) as y0. intros y0.
  cbn [theological_terms fold_left fst snd]. unfold re_sub.
  set (t1 := txt "YHWH"). set (t2 := txt "JHVH"). set (t3 := txt "LORD").
  set (t4 := txt "Son of Man").
  assert (I1 : In t1 protected_terms) by (left; reflexivity).
  assert (I2 : In t2 protected_terms) by (right; left; reflexivity).
  assert (I3 : In t3 protected_terms) by (right; right; left; reflexivity).
  assert (I4 : In t4 protected_terms) by (right; right; right; left; reflexivity).
  set (y1 := sub_from (re_term U t1) (lit t1) 0 None y0).
  set (y2 := sub_from (re_term U t2) (lit t2) 0 None y1).
  set (y3 := sub_from (re_term U t3) (lit t3) 0 None y2).
  destruct (term_stage t1 [] I1 (fun _ H => match H with end)
              (length y0) y0 None None (le_n _) I (fun _ H => match H with end))
    as [F1 C1]. fold y1 in F1, C1.
  destruct (term_stage t2 [t1] I2) with (n := length y1) (s := y1)
                                        (p_in := @None char) (p_out := @None char)
    as [F2 C2]; try exact I; try apply le_n.
  { intros t' [<-|[]]. split; [exact I1|discriminate]. }
  { intros t' [<-|[]]. apply C1. now left. }
  fold y2 in F2, C2.
  destruct (term_stage t3 [t1; t2] I3) with (n := length y2) (s := y2)
                                            (p_in := @None char) (p_out := @None char)
    as [F3 C3]; try exact I; try apply le_n.
  { intros t' [<-|[<-|[]]]; (split; [assumption|discriminate]). }
  { intros t' [<-|[<-|[]]]; apply C2; simpl; auto. }
  fold y3 in F3, C3.
  destruct (term_stage t4 [t1; t2; t3] I4) with (n := length y3) (s := y3)
                                            (p_in := @None char) (p_out := @None char)
    as [F4 C4]; try exact I; try apply le_n.
  { intros t' [<-|[<-|[<-|[]]]]; (split; [assumption|discriminate]). }
  { intros t' [<-|[<-|[<-|[]]]]; apply C3; simpl; auto. }
  split.
  - assert (T : forall a b c, same_fold a b -> same_fold b c -> same_fold a c)
      by (unfold same_fold; congruence).
    eapply Forall2_compose; [exact T|exact F4|].
    eapply Forall2_compose; [exact T|exact F3|].
    eapply Forall2_compose; [exact T|exact F2|exact F1].
  - intros t [<-|[<-|[<-|[<-|[]]]]]; apply C4; simpl; auto.
Qed.
End TermScan.

Lemma last_or_none pre : last_or None pre = last_opt pre.
Proof. destruct pre; reflexivity. Qed.

(** C7, as stated, fails: "lord" is a whole word of "[lord]", and the output
    is empty, the bracketed span being removed by [normalize_text]. *)
Lemma bracketed_term_does_not_survive :
  ~ (forall (U : Unicode) (term x : text),
       In term protected_terms -> term_survives U term x).
Proof.
  intros H.
  destruct (H ascii_only (txt "LORD") (txt "[lord]")
              (or_intror (or_intror (or_introl eq_refl)))
              (txt "[") (txt "lord]") eq_refl eq_refl) as (pre' & rest' & Heq).
  vm_compute in Heq. destruct pre'; discriminate Heq.
Qed.

(** C7, amended: for every protected term and every input, wherever the
    normalized text holds the term as a whole word, in any casing, the output
    of [clean_commentary_text] holds the term in its own casing at that
    position; and wherever the output holds the term as a whole word, in any
    casing, it is in its own casing.  (An occurrence inside a bracketed span
    goes with the span.) *)
Theorem protected_terms_canonical :
  forall (U : Unicode) (x term pre rest : text),
  In term protected_terms ->
  (normalize_text U x = pre ++ rest ->
   occurs U term (last_opt pre) rest = true ->
   firstn (length term) (skipn (length pre) (clean_commentary_text U x)) = term) /\
  (clean_commentary_text U x = pre ++ rest ->
   occurs U term (last_opt pre) rest = true ->
   firstn (length term) rest = term).
Proof.
  intros U x term pre rest Hterm.
  destruct (commentary_terms_canonical U x) as [Hfold Hcan].
  specialize (Hcan term Hterm). split.
  - intros Hn Hocc. rewrite Hn in Hfold.
    apply Forall2_app_inv_r in Hfold.
    destruct Hfold as (y1 & y2 & H1 & H2 & Hy). rewrite Hy in *.
    rewrite <- (Forall2_fold_length _ _ H1).
    rewrite skipn_app, Nat.sub_diag, skipn_all. simpl.
    apply (canonical_at U term y1 None y2 Hcan).
    rewrite last_or_none.
    rewrite (occurs_fold U term _ (last_opt pre) _ rest); auto.
    now apply last_opt_fold.
  - intros Hy Hocc. rewrite Hy in Hcan.
    apply (canonical_at U term pre None rest Hcan).
    now rewrite last_or_none.
Qed.

Lemma protected_terms_canonical_lord :
  In (txt "LORD") protected_terms /\
  normalize_text ascii_only (txt "the lord said") = txt "the " ++ txt "lord said" /\
  occurs ascii_only (txt "LORD") (last_opt (txt "the ")) (txt "lord said") = true /\
  firstn (length (txt "LORD"))
    (skipn (length (txt "the "))
       (clean_commentary_text ascii_only (txt "the lord said"))) = txt "LORD".
Proof.
  assert (H1 : In (txt "LORD") protected_terms) by (right; right; left; reflexivity).
  refine (conj H1 (conj eq_refl (conj eq_refl _))).
  exact (proj1 (protected_terms_canonical ascii_only (txt "the lord said")
                  (txt "LORD") (txt "the ") (txt "lord said") H1)
           eq_refl eq_refl).
Defined.

(** ** Texts the cleaner leaves alone *)

Lemma sub_from_fixed re repl (P : option char -> text -> Prop) :
  (forall p c s, P p (c :: s) -> self_match re repl p (c :: s) /\ P (Some c) s) ->
  forall s p, P p s -> sub_from re repl 0 p s = s.
Proof.
  intros HP. induction s as [|c s IH]; intros p H; [reflexivity|].
  destruct (HP p c s H) as [Hm Hs]. cbn [sub_from]. unfold self_match in Hm.
  destruct (re p (c :: s)) as [m|].
  - destruct Hm as [-> ->]. simpl. f_equal. now apply IH.
  - f_equal. now apply IH.
Qed.

Section TidyFacts.
Variable U : Unicode.

Lemma tidy_cons p c s :
  tidy U p (c :: s) = true ->
  plain c = true /\
  (is_space c = true ->
   c = 32%N /\ match p with Some q => is_space q = false | None => False end) /\
  (space_opt p = true -> is_punct c = false) /\
  (digit_opt U p = true -> is_verse_sep c = true -> digit_opt U (hd_error s) = false) /\
  tidy U (Some c) s = true.
Proof.
  cbn [tidy]. rewrite !andb_true_iff, !negb_true_iff.
  intros [[[[Hplain Hsp] Hpu] Hv] Ht]. repeat split; try assumption.
  - destruct (is_space c); [|discriminate].
    apply andb_true_iff in Hsp. now apply N.eqb_eq.
  - destruct (is_space c); [|discriminate].
    apply andb_true_iff in Hsp. destruct Hsp as [_ Hsp].
    destruct p; [now apply negb_true_iff|discriminate].
  - intros H. rewrite H in Hpu. exact Hpu.
  - intros H1 H2. rewrite H1, H2 in Hv. exact Hv.
Qed.

Lemma tidy_after_space c s :
  tidy U (Some c) s = true -> is_space c = true ->
  exists d s', s = d :: s' /\ is_space d = false /\ is_punct d = false.
Proof.
  intros Ht Hc. destruct s as [|d s'].
  - simpl in Ht. rewrite Hc in Ht. discriminate.
  - exists d, s'. apply tidy_cons in Ht.
    destruct Ht as (_ & Hsp & Hpu & _). split; [reflexivity|]. split.
    + destruct (is_space d) eqn:Hd; [|reflexivity].
      destruct (Hsp eq_refl) as [_ H]. congruence.
    + apply Hpu. exact Hc.
Qed.

Lemma tidy_whitespace p c s :
  tidy U p (c :: s) = true -> self_match re_whitespace (lit (txt " ")) p (c :: s).
Proof.
  intros Ht. unfold self_match, re_whitespace.
  destruct (is_space c) eqn:Hc; [|exact I].
  pose proof (tidy_cons _ _ _ Ht) as (_ & Hsp & _ & _ & Ht').
  destruct (Hsp Hc) as [-> _].
  destruct (tidy_after_space _ _ Ht' Hc) as (d & s' & -> & Hd & _).
  simpl. rewrite Hd. split; reflexivity.
Qed.

Lemma tidy_double_quote p c s :
  tidy U p (c :: s) = true ->
  self_match (one_of is_double_quote) (lit [34%N]) p (c :: s).
Proof.
  intros Ht. apply tidy_cons in Ht. destruct Ht as (Hplain & _).
  unfold self_match, one_of, is_double_quote. unfold plain in Hplain.
  apply negb_true_iff in Hplain. rewrite !orb_false_iff in Hplain.
  destruct Hplain as [[[[[-> ->] _] _] _] _]. simpl.
  destruct (c =? 34)%N eqn:Hc; [|exact I].
  apply N.eqb_eq in Hc. subst. split; reflexivity.
Qed.

Lemma tidy_single_quote p c s :
  tidy U p (c :: s) = true ->
  self_match (one_of is_single_quote) (lit [39%N]) p (c :: s).
Proof.
  intros Ht. apply tidy_cons in Ht. destruct Ht as (Hplain & _).
  unfold self_match, one_of, is_single_quote. unfold plain in Hplain.
  apply negb_true_iff in Hplain. rewrite !orb_false_iff in Hplain.
  destruct Hplain as [[[[[_ _] ->] ->] _] _]. simpl.
  destruct (c =? 39)%N eqn:Hc; [|exact I].
  apply N.eqb_eq in Hc. subst. split; reflexivity.
Qed.

Lemma tidy_footnote p c s :
  tidy U p (c :: s) = true ->
  self_match (one_of is_footnote_marker) (lit (@nil N)) p (c :: s).
Proof.
  intros Ht. apply tidy_cons in Ht. destruct Ht as (Hplain & _).
  unfold self_match, one_of. unfold plain in Hplain.
  apply negb_true_iff in Hplain. rewrite !orb_false_iff in Hplain.
  destruct Hplain as [[_ ->] _]. exact I.
Qed.

Lemma tidy_bracket p c s :
  tidy U p (c :: s) = true -> self_match re_bracket (lit (@nil N)) p (c :: s).
Proof.
  intros Ht. apply tidy_cons in Ht. destruct Ht as (Hplain & _).
  unfold self_match, re_bracket. unfold plain in Hplain.
  apply negb_true_iff in Hplain. rewrite !orb_false_iff in Hplain.
  destruct Hplain as [_ ->]. exact I.
Qed.

Lemma tidy_after_digits s : forall p,
  tidy U p s = true -> digit_opt U p = true ->
  match drop_while (is_digit U) s with
  | sep :: d :: _ => is_verse_sep sep = true -> is_digit U d = false
  | _ => True
  end.
Proof.
  induction s as [|c s IH]; intros p Ht Hp; [exact I|].
  pose proof (tidy_cons _ _ _ Ht) as (_ & _ & _ & Hv & Ht').
  cbn [drop_while]. destruct (is_digit U c) eqn:Hc.
  - apply (IH (Some c) Ht' Hc).
  - destruct s as [|d s']; [exact I|]. intros Hsep. apply (Hv Hp Hsep).
Qed.

Lemma tidy_verse p c s :
  tidy U p (c :: s) = true -> self_match (re_verse U) verse_token p (c :: s).
Proof.
  intros Ht. unfold self_match, re_verse. cbn [take_while drop_while].
  destruct (is_digit U c) eqn:Hc; [|exact I].
  apply tidy_cons in Ht. destruct Ht as (_ & _ & _ & _ & Ht).
  pose proof (tidy_after_digits _ _ Ht Hc) as H.
  destruct (drop_while (is_digit U) s) as [|sep [|d r]]; try exact I.
  cbn [take_while]. destruct (is_digit U d) eqn:Hd; [|exact I].
  destruct (is_verse_sep sep); [|exact I]. now discriminate (H eq_refl).
Qed.

Lemma tidy_space_punct p c s :
  tidy U p (c :: s) = true -> self_match re_space_punct (group 1) p (c :: s).
Proof.
  intros Ht. unfold self_match, re_space_punct.
  destruct (is_space c) eqn:Hc; [|exact I].
  apply tidy_cons in Ht. destruct Ht as (_ & _ & _ & _ & Ht).
  destruct (tidy_after_space _ _ Ht Hc) as (d & s' & -> & Hd & Hp).
  cbn [drop_while]. rewrite Hd, Hp. exact I.
Qed.

Lemma re_sub_tidy re repl s :
  (forall p c s', tidy U p (c :: s') = true -> self_match re repl p (c :: s')) ->
  tidy U None s = true -> re_sub re repl s = s.
Proof.
  intros H Ht. unfold re_sub.
  apply (sub_from_fixed re repl (fun p s => tidy U p s = true)); [|exact Ht].
  intros p c s' Hs. split; [now apply H|]. now apply tidy_cons in Hs.
Qed.

Lemma tidy_rstrip s : forall p, tidy U p s = true -> rstrip s = s.
Proof.
  induction s as [|c s IH]; intros p Ht; [reflexivity|].
  apply tidy_cons in Ht. destruct Ht as (_ & _ & _ & _ & Ht).
  cbn [rstrip]. rewrite (IH _ Ht). destruct s; [|reflexivity].
  simpl in Ht. apply negb_true_iff in Ht. now rewrite Ht.
Qed.

Lemma tidy_strip s : tidy U None s = true -> strip s = s.
Proof.
  intros Ht. unfold strip, lstrip.
  replace (drop_while is_space s) with s; [now apply (tidy_rstrip s None)|].
  destruct s as [|c s]; [reflexivity|]. simpl.
  destruct (is_space c) eqn:Hc; [|reflexivity].
  apply tidy_cons in Ht. destruct Ht as (_ & Hsp & _). now destruct (Hsp Hc).
Qed.

(** A tidy text that NFKC leaves alone is a fixed point of the cleaner. *)
Lemma clean_bible_text_tidy y :
  nfkc U y = y -> tidy U None y = true -> clean_bible_text U y = y.
Proof.
  intros Hn Ht. unfold clean_bible_text, normalize_text, cleanup_patterns.
  rewrite Hn. cbn [fold_left fst snd].
  rewrite (re_sub_tidy re_whitespace _ y tidy_whitespace Ht).
  rewrite (re_sub_tidy _ _ y tidy_double_quote Ht).
  rewrite (re_sub_tidy _ _ y tidy_single_quote Ht).
  rewrite (re_sub_tidy _ _ y tidy_footnote Ht).
  rewrite (re_sub_tidy _ _ y tidy_bracket Ht).
  rewrite (tidy_strip y Ht).
  rewrite (re_sub_tidy _ _ y tidy_verse Ht).
  apply (re_sub_tidy _ _ y tidy_space_punct Ht).
Qed.
End TidyFacts.

(** C1, amended: [clean_bible_text] is idempotent on every input whose
    cleaned text is tidy and is left alone by NFKC: tidy meaning that the
    only whitespace is a single U+0020 between two other characters, and
    that the text has no curly quote, footnote marker or opening bracket, no
    N:M or N.M marker and no space before punctuation.  (A cleaned text that
    holds a bracketed verse token is not tidy: the second pass removes the
    token.) *)
Theorem clean_bible_text_idempotent_on_tidy :
  forall (U : Unicode) (x : text),
  nfkc U (clean_bible_text U x) = clean_bible_text U x ->
  tidy U None (clean_bible_text U x) = true ->
  clean_bible_text U (clean_bible_text U x) = clean_bible_text U x.
Proof. intros U x. apply clean_bible_text_tidy. Qed.

Lemma clean_bible_text_idempotent_beginning :
  nfkc ascii_only (clean_bible_text ascii_only (txt "In  the beginning , God created *"))
    = clean_bible_text ascii_only (txt "In  the beginning , God created *") /\
  tidy ascii_only None
    (clean_bible_text ascii_only (txt "In  the beginning , God created *")) = true /\
  clean_bible_text ascii_only (txt "In  the beginning , God created *")
    = txt "In the beginning, God created" /\
  clean_bible_text ascii_only
    (clean_bible_text ascii_only (txt "In  the beginning , God created *"))
    = clean_bible_text ascii_only (txt "In  the beginning , God created *").
Proof.
  refine (conj eq_refl (conj eq_refl (conj eq_refl _))).
  exact (clean_bible_text_idempotent_on_tidy ascii_only
           (txt "In  the beginning , God created *") eq_refl eq_refl).
Defined.

(** ** What normalization leaves in a text *)

Lemma sub_from_Forall (Q : char -> Prop) re repl :
  (forall g, Forall Q (repl g)) ->
  forall s k p, Forall Q s -> Forall Q (sub_from re repl k p s).
Proof.
  intros Hr. induction s as [|c s IH]; intros k p Hs; [constructor|].
  inversion Hs as [|? ? Hc Hs']; subst. cbn [sub_from].
  destruct k as [|k]; [|now apply IH].
  destruct (re p (c :: s)) as [m|].
  - apply Forall_app. split; [apply Hr|now apply IH].
  - constructor; [exact Hc|now apply IH].
Qed.

Lemma sub_from_unmatched (Q : char -> Prop) re repl :
  (forall g, Forall Q (repl g)) ->
  (forall p c s, re p (c :: s) = None -> Q c) ->
  forall s k p, Forall Q (sub_from re repl k p s).
Proof.
  intros Hr Hnone. induction s as [|c s IH]; intros k p; [constructor|].
  cbn [sub_from]. destruct k as [|k]; [|apply IH].
  destruct (re p (c :: s)) as [m|] eqn:Hm.
  - apply Forall_app. split; [apply Hr|apply IH].
  - constructor; [apply (Hnone _ _ _ Hm)|apply IH].
Qed.

Section NormalFacts.
Variable U : Unicode.

Lemma lstrip_head s : space_opt (hd_error (lstrip s)) = false.
Proof.
  unfold lstrip. induction s as [|c s IH]; [reflexivity|]. simpl.
  destruct (is_space c) eqn:Hc; [exact IH|]. simpl. exact Hc.
Qed.

Lemma rstrip_head s :
  space_opt (hd_error s) = false -> space_opt (hd_error (rstrip s)) = false.
Proof.
  destruct s as [|c s]; [reflexivity|]. simpl. intros Hc.
  destruct (rstrip s); simpl; [rewrite Hc; simpl|]; exact Hc.
Qed.

Lemma rstrip_last s : space_opt (last_opt (rstrip s)) = false.
Proof.
  induction s as [|c s IH]; [reflexivity|]. cbn [rstrip].
  destruct (rstrip s) as [|d r] eqn:Hr.
  - destruct (is_space c) eqn:Hc; simpl; [reflexivity|exact Hc].
  - exact IH.
Qed.

Lemma strip_trimmed s :
  space_opt (hd_error (strip s)) = false /\ space_opt (last_opt (strip s)) = false.
Proof.
  unfold strip. split; [apply rstrip_head, lstrip_head|apply rstrip_last].
Qed.

Lemma lstrip_suffix s : exists l, s = l ++ lstrip s.
Proof.
  unfold lstrip. induction s as [|c s [l IH]]; [now exists []|]. simpl.
  destruct (is_space c); [|now exists []].
  exists (c :: l). simpl. now f_equal.
Qed.

Lemma rstrip_prefix s : exists r, s = rstrip s ++ r.
Proof.
  induction s as [|c s [r IH]]; [now exists []|]. cbn [rstrip].
  destruct (rstrip s) as [|d t] eqn:Hr.
  - destruct (is_space c).
    + now exists (c :: s).
    + exists r. simpl in IH. simpl. now f_equal.
  - exists r. simpl. now f_equal.
Qed.

Lemma strip_infix s : exists l r, s = l ++ strip s ++ r.
Proof.
  destruct (lstrip_suffix s) as [l Hl].
  destruct (rstrip_prefix (lstrip s)) as [r Hr].
  exists l, r. unfold strip. now rewrite <- Hr.
Qed.

Lemma Forall_strip (Q : char -> Prop) s : Forall Q s -> Forall Q (strip s).
Proof.
  intros H. destruct (strip_infix s) as (l & r & Hs). rewrite Hs in H.
  apply Forall_app in H. destruct H as [_ H].
  apply Forall_app in H. tauto.
Qed.

Lemma re_sub_class_chars (Q : char -> Prop) (p : char -> bool) r s :
  Forall Q r -> Forall Q s -> Forall Q (re_sub (one_of p) (lit r) s).
Proof. intros Hr Hs. apply sub_from_Forall; auto. Qed.

Lemma re_sub_class_gone (Q : char -> Prop) (p : char -> bool) r s :
  (forall c, p c = false -> Q c) -> Forall Q r ->
  Forall Q (re_sub (one_of p) (lit r) s).
Proof.
  intros Hp Hr. apply sub_from_unmatched; [intros g; exact Hr|].
  intros q c s'. unfold one_of. destruct (p c) eqn:Hc; [discriminate|].
  intros _. now apply Hp.
Qed.

Lemma re_sub_whitespace_plain s :
  Forall (fun c => is_space c = true -> c = 32%N)
         (re_sub re_whitespace (lit (txt " ")) s).
Proof.
  apply sub_from_unmatched.
  - intros g. constructor; [reflexivity|constructor].
  - intros q c s'. unfold re_whitespace. destruct (is_space c); [discriminate|].
    discriminate.
Qed.

(** The text between NFKC and [strip] in [normalize_text], step by step. *)
Lemma normalize_text_steps x :
  exists t1 t2 t3 t4 t5,
    t1 = re_sub re_whitespace (lit (txt " ")) (nfkc U x) /\
    t2 = re_sub (one_of is_double_quote) (lit [34%N]) t1 /\
    t3 = re_sub (one_of is_single_quote) (lit [39%N]) t2 /\
    t4 = re_sub (one_of is_footnote_marker) (lit (@nil N)) t3 /\
    t5 = re_sub re_bracket (lit (@nil N)) t4 /\
    normalize_text U x = strip t5.
Proof. repeat eexists. Qed.

Lemma normalize_text_chars x : Forall normalized_char (normalize_text U x).
Proof.
  destruct (normalize_text_steps x) as (t1 & t2 & t3 & t4 & t5 & H1 & H2 & H3 & H4 & H5 & ->).
  assert (S1 : Forall (fun c => is_space c = true -> c = 32%N) t5).
  { subst t5 t4 t3 t2. unfold re_sub at 1. apply sub_from_Forall; [constructor|].
    apply re_sub_class_chars; [constructor|].
    apply re_sub_class_chars; [repeat constructor; discriminate|].
    apply re_sub_class_chars; [repeat constructor; discriminate|].
    subst t1. apply re_sub_whitespace_plain. }
  assert (S4 : Forall (fun c => is_footnote_marker c = false) t5).
  { subst t5. unfold re_sub at 1. apply sub_from_Forall; [constructor|].
    subst t4. apply re_sub_class_gone; [auto|constructor]. }
  apply Forall_strip. rewrite Forall_forall in *.
  intros c Hc. split; [apply (S1 c Hc)|apply (S4 c Hc)].
Qed.

Lemma lazy_to_close_none s :
  Forall (fun c => c <> 10%N) s -> lazy_to_close s = None -> ~ In 93%N s.
Proof.
  induction 1 as [|c s Hc Hs IH]; simpl; [tauto|].
  destruct (c =? 93)%N eqn:H93; [discriminate|].
  destruct (c =? 10)%N eqn:H10; [apply N.eqb_eq in H10; contradiction|].
  destruct (lazy_to_close s); [discriminate|].
  intros _ [Heq|Hin]; [apply N.eqb_neq in H93; congruence|now apply IH].
Qed.

Lemma re_sub_bracket_free s : forall k p,
  Forall (fun c => c <> 10%N) s ->
  bracket_free (sub_from re_bracket (lit (@nil N)) k p s) /\
  incl (sub_from re_bracket (lit (@nil N)) k p s) s.
Proof.
  induction s as [|c s IH]; intros k p Hs.
  - simpl. split; [|apply incl_refl]. intros [|? ?] b H; discriminate H.
  - inversion Hs as [|? ? Hc Hs']; subst. cbn [sub_from].
    destruct k as [|k].
    2:{ destruct (IH k (Some c) Hs') as [Hb Hi]. split; [exact Hb|].
        now apply incl_tl. }
    destruct (re_bracket p (c :: s)) as [m|] eqn:Hm.
    + destruct (IH (more m) (Some c) Hs') as [Hb Hi]. split; [exact Hb|].
      now apply incl_tl.
    + destruct (IH 0 (Some c) Hs') as [Hb Hi]. split.
      * intros [|a0 a] b Heq; simpl in Heq; injection Heq as -> Heq.
        -- subst b. intros Hin. apply Hi in Hin. revert Hin.
           apply lazy_to_close_none; [exact Hs'|].
           unfold re_bracket in Hm. simpl in Hm.
           destruct (lazy_to_close s); [discriminate|reflexivity].
        -- now apply (Hb a b).
      * intros d [<-|Hd]; [now left|right; now apply Hi].
Qed.

Lemma bracket_free_infix l m r : bracket_free (l ++ m ++ r) -> bracket_free m.
Proof.
  intros H a b Hm Hin. subst m.
  apply (H (l ++ a) (b ++ r)).
  - now rewrite <- !app_assoc.
  - apply in_or_app. now left.
Qed.

Lemma normalize_text_bracket_free x : bracket_free (normalize_text U x).
Proof.
  destruct (normalize_text_steps x) as (t1 & t2 & t3 & t4 & t5 & H1 & H2 & H3 & H4 & H5 & ->).
  assert (N4 : Forall (fun c => c <> 10%N) t4).
  { assert (S : Forall (fun c => is_space c = true -> c = 32%N) t4).
    { subst t4 t3 t2.
      apply re_sub_class_chars; [constructor|].
      apply re_sub_class_chars; [repeat constructor; discriminate|].
      apply re_sub_class_chars; [repeat constructor; discriminate|].
      subst t1. apply re_sub_whitespace_plain. }
    eapply Forall_impl; [|exact S]. intros c Hc ->. now specialize (Hc eq_refl). }
  destruct (strip_infix t5) as (l & r & Hs).
  apply (bracket_free_infix l _ r). rewrite <- Hs. subst t5.
  apply re_sub_bracket_free, N4.
Qed.
End NormalFacts.

(** X1: the text [normalize_text] returns neither begins nor ends with a
    whitespace character. *)
Theorem normalize_text_trimmed : forall (U : Unicode) (x : text),
  space_opt (hd_error (normalize_text U x)) = false /\
  space_opt (last_opt (normalize_text U x)) = false.
Proof. intros U x. apply strip_trimmed. Qed.

(** X2: in the text [normalize_text] returns, the only whitespace character
    is U+0020 (tabs, newlines and the other spaces of [\s] are gone), and
    none of the footnote markers (dagger, double dagger, asterisk, hash,
    pilcrow) is left. *)
Theorem normalize_text_characters : forall (U : Unicode) (x : text),
  Forall normalized_char (normalize_text U x).
Proof. intros U x. apply normalize_text_chars. Qed.

(** X3: in the text [normalize_text] returns, no opening square bracket has a
    closing one anywhere after it: every bracketed span is removed, also one
    that ran over several lines of the input, the newlines being spaces by
    the time brackets are looked for.  An opening bracket that is never
    closed stays. *)
Theorem normalize_text_no_bracketed_span :
  forall (U : Unicode) (x a b : text),
  normalize_text U x = a ++ 91%N :: b -> ~ In 93%N b.
Proof. intros U x a b. apply (normalize_text_bracket_free U x). Qed.

Lemma normalize_text_no_bracketed_span_open :
  normalize_text ascii_only (txt "a [b] c [d") = txt "a  c " ++ 91%N :: txt "d" /\
  ~ In 93%N (txt "d").
Proof.
  refine (conj eq_refl _).
  exact (normalize_text_no_bracketed_span ascii_only (txt "a [b] c [d")
           (txt "a  c ") (txt "d") eq_refl).
Defined.

(** ** Punctuation after [clean_bible_text] *)

Lemma is_punct_not_space c : is_punct c = true -> is_space c = false.
Proof.
  unfold is_punct. rewrite !orb_true_iff, !N.eqb_eq.
  intros [[[[[->| ->]| ->]| ->]| ->]| ->]; reflexivity.
Qed.

Lemma drop_while_skipn p s : drop_while p s = skipn (length (take_while p s)) s.
Proof.
  induction s as [|c s IH]; [reflexivity|]. simpl.
  destruct (p c); [exact IH|reflexivity].
Qed.

Lemma spaced_punct_free_weaken s p q :
  (space_opt q = true -> space_opt p = true) ->
  spaced_punct_free p s -> spaced_punct_free q s.
Proof.
  destruct s as [|c s]; [auto|]. simpl. intros H [H1 H2]. split; auto.
Qed.

(** What the scan of [\s+([,.;:?!])] starts its output with. *)
Lemma space_punct_head s p :
  match re_space_punct p s with
  | Some m => exists q, groups m = [[q]] /\ is_punct q = true /\
                        hd_error (sub_from re_space_punct (group 1) 0 p s) = Some q
  | None => hd_error (sub_from re_space_punct (group 1) 0 p s) = hd_error s
  end.
Proof.
  destruct s as [|c s]; [reflexivity|]. cbn [sub_from].
  destruct (re_space_punct p (c :: s)) as [m|] eqn:Hm; [|reflexivity].
  unfold re_space_punct in Hm.
  destruct (is_space c); [|discriminate].
  destruct (drop_while is_space s) as [|q r]; [discriminate|].
  destruct (is_punct q) eqn:Hq; [|discriminate].
  injection Hm as <-. exists q. simpl. auto.
Qed.

Lemma skipn_S_tl {A} k : forall (s : list A), skipn (S k) s = tl (skipn k s).
Proof.
  induction k as [|k IH]; intros [|c s]; try reflexivity.
  change (skipn (S (S k)) (c :: s)) with (skipn (S k) s).
  now rewrite IH.
Qed.

Lemma spaced_punct_free_head s p :
  spaced_punct_free None s ->
  (forall d, hd_error s = Some d -> space_opt p = true -> is_punct d = false) ->
  spaced_punct_free p s.
Proof.
  destruct s as [|d s]; [auto|]. simpl. intros [_ H] Hd. split; [|exact H].
  now apply Hd.
Qed.

(** A match at [c :: s] when [c] is whitespace and a match, or a punctuation
    character, stands right after it. *)
Lemma space_punct_extends p c s :
  is_space c = true ->
  (re_space_punct (Some c) s <> None \/
   exists d s', s = d :: s' /\ is_punct d = true) ->
  re_space_punct p (c :: s) <> None.
Proof.
  intros Hc H. unfold re_space_punct at 1. rewrite Hc.
  destruct H as [H|(d & s' & -> & Hd)].
  - unfold re_space_punct in H. destruct s as [|c2 s2]; [congruence|].
    destruct (is_space c2) eqn:Hc2; [|congruence].
    cbn [drop_while]. rewrite Hc2.
    destruct (drop_while is_space s2) as [|q r]; [congruence|].
    destruct (is_punct q); [discriminate|congruence].
  - cbn [drop_while]. rewrite (is_punct_not_space _ Hd), Hd. discriminate.
Qed.

Lemma space_punct_free_scan n : forall s p,
  length s <= n ->
  spaced_punct_free None (sub_from re_space_punct (group 1) 0 p s).
Proof.
  induction n as [|n IH]; intros s p Hlen.
  - destruct s; [exact I|simpl in Hlen; lia].
  - destruct s as [|c s]; [exact I|]. simpl in Hlen. cbn [sub_from].
    destruct (re_space_punct p (c :: s)) as [m|] eqn:Hm.
    + unfold re_space_punct in Hm.
      destruct (is_space c) eqn:Hc; [|discriminate].
      destruct (drop_while is_space s) as [|q r] eqn:Hd; [discriminate|].
      destruct (is_punct q) eqn:Hq; [|discriminate].
      injection Hm as <-. cbn [groups more group Nat.sub nth app].
      rewrite sub_from_skip, skipn_S_tl, <- drop_while_skipn, Hd. cbn [tl].
      split; [discriminate|].
      apply (spaced_punct_free_weaken _ None).
      * simpl. rewrite (is_punct_not_space _ Hq). discriminate.
      * apply IH. pose proof (drop_while_skipn is_space s) as Hs.
        rewrite Hd in Hs.
        assert (length (q :: r) <= length s)
          by (rewrite Hs, length_skipn; lia).
        simpl in *. lia.
    + split; [discriminate|].
      apply spaced_punct_free_head; [apply IH; lia|].
      intros d Hd Hc. simpl in Hc.
      destruct (is_punct d) eqn:Hpd; [|reflexivity]. exfalso.
      apply (space_punct_extends p c s Hc); [|exact Hm].
      pose proof (space_punct_head s (Some c)) as Hh.
      destruct (re_space_punct (Some c) s) as [m'|]; [left; discriminate|].
      right. rewrite Hh in Hd. destruct s as [|d' s']; [discriminate|].
      injection Hd as ->. eauto.
Qed.

Lemma spaced_punct_free_split s : forall p a c d b,
  spaced_punct_free p s -> s = a ++ c :: d :: b ->
  is_space c = true -> is_punct d = false.
Proof.
  induction s as [|e s IH]; intros p a c d b H Hs Hc.
  - now destruct a.
  - destruct H as [_ H]. destruct a as [|a0 a]; simpl in Hs; injection Hs as -> ->.
    + destruct H as [H _]. now apply H.
    + now apply (IH (Some a0) a c d b).
Qed.

(** X4: in the text [clean_bible_text] returns, no whitespace character
    stands right before one of [, . ; : ? !]. *)
Theorem clean_bible_text_punctuation :
  forall (U : Unicode) (x a b : text) (c d : char),
  clean_bible_text U x = a ++ c :: d :: b ->
  is_space c = true -> is_punct d = false.
Proof.
  intros U x a b c d Hx.
  apply (spaced_punct_free_split (clean_bible_text U x) None a c d b); [|exact Hx].
  exact (space_punct_free_scan _ (re_sub (re_verse U) verse_token (normalize_text U x))
           None (le_n _)).
Qed.

Lemma clean_bible_text_punctuation_comma :
  clean_bible_text ascii_only (txt "God , said") = txt "God," ++ 32%N :: 115%N :: txt "aid" /\
  is_space 32%N = true /\ is_punct 115%N = false.
Proof.
  refine (conj eq_refl (conj eq_refl _)).
  exact (clean_bible_text_punctuation ascii_only (txt "God , said")
           (txt "God,") (txt "aid") 32%N 115%N eq_refl eq_refl).
Defined.

(** X5: [clean_commentary_text] changes nothing of a normalized text but the
    case of letters: its result has the length of the normalized text and
    agrees with it character by character up to case. *)
Theorem clean_commentary_text_recases :
  forall (U : Unicode) (x : text),
  Forall2 same_fold (clean_commentary_text U x) (normalize_text U x) /\
  length (clean_commentary_text U x) = length (normalize_text U x).
Proof.
  intros U x. destruct (commentary_terms_canonical U x) as [H _].
  split; [exact H|]. now apply Forall2_fold_length.
Qed.

(** ** Records of the commentary parsers *)

Lemma for_each_appends {A B} (P : B -> Prop) (body : list B -> A -> result (list B)) :
  (forall st x st', body st x = Ok st' -> exists e, st' = st ++ [e] /\ P e) ->
  forall xs st st',
    for_each xs body st = Ok st' ->
    exists es, st' = st ++ es /\ Forall P es /\ length es = length xs.
Proof.
  intros Hbody. induction xs as [|x xs IH]; intros st st' H; simpl in H.
  - injection H as <-. exists []. rewrite app_nil_r. auto.
  - unfold bind in H. destruct (body st x) as [st1|] eqn:H1; [|discriminate].
    destruct (Hbody _ _ _ H1) as (e & -> & He).
    destruct (IH _ _ H) as (es & -> & Hes & Hlen).
    exists (e :: es). rewrite <- app_assoc. simpl. auto.
Qed.

Section MarkupRecords.
Variable U : Unicode.

Lemma opt_int_shape z : none_or_int (opt_int z).
Proof. destruct z; [right; eexists; reflexivity|now left]. Qed.

Lemma opt_str_shape a : none_or_str (opt_str a).
Proof. destruct a; [right; eexists; reflexivity|now left]. Qed.

Lemma xml_entry_record source entries elem entries' :
  xml_entry U source entries elem = Ok entries' ->
  exists e, entries' = entries ++ [e] /\ markup_record source e.
Proof.
  unfold xml_entry, bind.
  destruct (find elem (txt "content")) as [c|]; [|discriminate].
  destruct (find elem (txt "reference")) as [r|].
  - unfold xml_reference, bind.
    destruct (int_if_present U (get_attr r (txt "chapter"))) as [ch|]; [|discriminate].
    destruct (int_if_present U (get_attr r (txt "verse_start"))) as [vs|]; [|discriminate].
    destruct (int_if_present U (get_attr r (txt "verse_end"))) as [ve|]; [|discriminate].
    destruct (find elem (txt "author")) as [a|].
    + unfold xml_author, bind.
      destruct (int_if_present U (get_attr a (txt "year"))) as [y|]; [|discriminate].
      intros H. injection H as <-. eexists. split; [reflexivity|].
      repeat split; try (eexists; vm_compute; reflexivity); try (vm_compute; reflexivity).
      right. do 4 eexists. repeat split; try (vm_compute; reflexivity).
      * apply opt_str_shape.
      * apply opt_int_shape.
      * apply opt_int_shape.
      * destruct ve; [right; eexists; reflexivity|now left].
    + intros H. injection H as <-. eexists. split; [reflexivity|].
      repeat split; try (eexists; vm_compute; reflexivity); try (vm_compute; reflexivity).
      right. do 4 eexists. repeat split; try (vm_compute; reflexivity).
      * apply opt_str_shape.
      * apply opt_int_shape.
      * apply opt_int_shape.
      * destruct ve; [right; eexists; reflexivity|now left].
  - destruct (find elem (txt "author")) as [a|].
    + unfold xml_author, bind.
      destruct (int_if_present U (get_attr a (txt "year"))) as [y|]; [|discriminate].
      intros H. injection H as <-. eexists. split; [reflexivity|].
      repeat split; try (eexists; vm_compute; reflexivity); try (vm_compute; reflexivity).
      left. repeat split; vm_compute; reflexivity.
    + intros H. injection H as <-. eexists. split; [reflexivity|].
      repeat split; try (eexists; vm_compute; reflexivity); try (vm_compute; reflexivity).
      left. repeat split; vm_compute; reflexivity.
Qed.
End MarkupRecords.

(** X6: when [_process_xml_commentary] returns, it returns one record per
    [entry] element, in the order of the document, and every record has
    [source] (the argument), [content] and [tradition] as [str]; the four
    reference keys [book], [chapter], [verse_start] and [verse_end] are
    either all absent (no [reference] element) or all present, [book] being
    a [str] or [None], [chapter] and [verse_start] an [int] or [None], and
    [verse_end] an [int] or the value of [verse_start]. *)
Theorem xml_commentary_records :
  forall (U : Unicode) (doc : soup) (source : text) (entries : list entry),
  _process_xml_commentary U doc source = Ok entries ->
  length entries = length (soup_find_all doc (txt "entry")) /\
  Forall (markup_record source) entries.
Proof.
  intros U doc source entries H. unfold _process_xml_commentary in H.
  destruct (for_each_appends (markup_record source) (xml_entry U source)
              (xml_entry_record U source) _ _ _ H) as (es & -> & Hes & Hlen).
  auto.
Qed.

Lemma xml_commentary_records_john :
  _process_xml_commentary ascii_only john_commentary_doc (txt "S")
    = Ok [john_commentary_entry] /\
  length [john_commentary_entry]
    = length (soup_find_all john_commentary_doc (txt "entry")) /\
  Forall (markup_record (txt "S")) [john_commentary_entry].
Proof.
  refine (conj eq_refl _).
  exact (xml_commentary_records ascii_only john_commentary_doc (txt "S")
           [john_commentary_entry] eq_refl).
Defined.

Lemma for_each_appends2 {A B} (R : A -> B -> Prop)
    (body : list B -> A -> result (list B)) :
  (forall st x st', body st x = Ok st' -> exists e, st' = st ++ [e] /\ R x e) ->
  forall xs st st',
    for_each xs body st = Ok st' -> exists es, st' = st ++ es /\ Forall2 R xs es.
Proof.
  intros Hbody. induction xs as [|x xs IH]; intros st st' H; simpl in H.
  - injection H as <-. exists []. rewrite app_nil_r. auto.
  - unfold bind in H. destruct (body st x) as [st1|] eqn:H1; [|discriminate].
    destruct (Hbody _ _ _ H1) as (e & -> & He).
    destruct (IH _ _ H) as (es & -> & Hes).
    exists (e :: es). rewrite <- app_assoc. simpl. auto.
Qed.

Section JsonRecords.
Variable U : Unicode.

Lemma json_item_stamped source entries item entries' :
  json_item U source entries item = Ok entries' ->
  exists e, entries' = entries ++ [e] /\ stamped U source item e.
Proof.
  unfold json_item, bind, py_setitem.
  destruct item as [| | | |l|d]; try discriminate.
  assert (Hsrc : txt "source" <> txt "content") by discriminate.
  destruct (dict_get text_eq_dec (dict_set text_eq_dec d (txt "source") (VStr source))
              (txt "content")) as [c|] eqn:Hc;
    rewrite dict_get_set_other in Hc by exact Hsrc.
  - unfold clean_commentary_value. destruct c; try discriminate.
    intros H. injection H as <-. eexists. split; [reflexivity|].
    exists d. split; [reflexivity|]. unfold field. repeat split.
    + rewrite dict_get_set_other by (intro H; now apply Hsrc).
      apply dict_get_set_same.
    + rewrite Hc. eexists. split; [reflexivity|]. apply dict_get_set_same.
    + intros key H1 H2. rewrite !dict_get_set_other; auto.
  - intros H. injection H as <-. eexists. split; [reflexivity|].
    exists d. split; [reflexivity|]. unfold field. repeat split.
    + apply dict_get_set_same.
    + rewrite Hc. rewrite dict_get_set_other by exact Hsrc. exact Hc.
    + intros key H1 H2. rewrite dict_get_set_other; auto.
Qed.
End JsonRecords.

(** X7: when the decoded document is an array, or an object whose [entries]
    is an array, and [_process_json_commentary] returns, it returns one
    record per item, in order, and each record is the item itself (an
    object) with [source] set to the argument and [content], when the item
    has one, a [str] replaced by its cleaned form; every other field of the
    item is kept as it was. *)
Theorem json_commentary_stamped :
  forall (U : Unicode) (json_loads : text -> option pyval)
         (content source : text) (data : pyval) (items : list pyval)
         (entries : list entry),
  json_loads content = Some data -> record_items data = Some items ->
  _process_json_commentary U json_loads content source = Ok entries ->
  Forall2 (stamped U source) items entries.
Proof.
  intros U json_loads content source data items entries Hl Hi.
  unfold _process_json_commentary. rewrite Hl. unfold json_commentary_of.
  destruct data as [| | | |l|d]; try discriminate.
  - injection Hi as ->. intros H.
    destruct (for_each_appends2 (stamped U source) (json_item U source)
                (json_item_stamped U source) _ _ _ H) as (es & -> & Hes).
    exact Hes.
  - simpl in Hi. destruct (dict_get text_eq_dec d (txt "entries")) as [v|]; [|discriminate].
    destruct v; try discriminate. injection Hi as ->. simpl. intros H.
    destruct (for_each_appends2 (stamped U source) (json_item U source)
                (json_item_stamped U source) _ _ _ H) as (es & -> & Hes).
    exact Hes.
Qed.

Lemma json_commentary_stamped_note :
  loads_note note_json = Some (VList [note_item]) /\
  record_items (VList [note_item]) = Some [note_item] /\
  _process_json_commentary ascii_only loads_note note_json (txt "S")
    = Ok [note_entry] /\
  Forall2 (stamped ascii_only (txt "S")) [note_item] [note_entry].
Proof.
  refine (conj eq_refl (conj eq_refl (conj eq_refl _))).
  exact (json_commentary_stamped ascii_only loads_note note_json (txt "S")
           (VList [note_item]) [note_item] [note_entry] eq_refl eq_refl eq_refl).
Defined.

(** ** When alignment returns *)

Lemma add_verse_returns e book chapter content m verse :
  hashable book = true -> hashable chapter = true ->
  field e "content" = Some content -> is_str content = true ->
  all_strings m ->
  exists m', add_verse e book chapter m verse = Ok m' /\ all_strings m'.
Proof.
  unfold hashable, add_verse, bind, field. intros Hb Hc Hcontent Hstr Hm.
  destruct (py_hash book) as [kb|]; [|discriminate].
  destruct (py_hash chapter) as [kc|]; [|discriminate].
  simpl. rewrite Hcontent. eexists. split; [reflexivity|].
  intros k. destruct (comm_key_dec (kb, kc, verse) k) as [<-|Hne].
  - rewrite dict_get_or_set_same. apply Forall_app. split; [apply Hm|].
    constructor; [exact Hstr|constructor].
  - rewrite dict_get_or_set_other by exact Hne. apply Hm.
Qed.

Lemma add_entry_returns e m :
  alignable e = true -> all_strings m ->
  exists m', add_entry m e = Ok m' /\ all_strings m'.
Proof.
  unfold alignable, add_entry, field. intros He Hm.
  destruct (dict_get text_eq_dec e (txt "book")) as [book|]; [|eauto].
  destruct (dict_get text_eq_dec e (txt "chapter")) as [chapter|]; [|eauto].
  destruct (dict_get text_eq_dec e (txt "verse_start")) as [vs|]; [|eauto].
  rewrite !andb_true_iff in He. destruct He as [[[[Hvs Hve] Hb] Hc] Hcontent].
  destruct (dict_get text_eq_dec e (txt "content")) as [content|] eqn:Hget;
    [|discriminate].
  unfold is_int in Hvs, Hve. unfold bind.
  destruct (dict_get_or text_eq_dec e (txt "verse_end") vs) as [| | | | |];
    try discriminate; destruct vs; try discriminate; simpl;
    apply (for_each_returns all_strings); try exact Hm;
    intros verse st _ Hst;
    apply (add_verse_returns e book chapter content); auto.
Qed.

Lemma py_join_returns sep l :
  Forall (fun v => is_str v = true) l -> exists c, py_join sep l = Ok c.
Proof.
  induction 1 as [|v l Hv Hl [c IH]]; simpl; [eauto|].
  destruct v; try discriminate. destruct l; [eauto|].
  rewrite IH. simpl. eauto.
Qed.

Lemma add_commentary_returns df source entries :
  df <> [] ->
  Forall (fun e => alignable e = true) entries ->
  exists df', add_commentary df (source, entries) = Ok df' /\ df' <> [].
Proof.
  intros Hdf He. unfold add_commentary. simpl.
  destruct (for_each_returns all_strings add_entry entries) with (st := @nil (comm_key * list pyval))
    as (m & -> & Hm).
  - intros e st Hin Hst. apply add_entry_returns; [|exact Hst].
    rewrite Forall_forall in He. now apply He.
  - intros k. constructor.
  - simpl. apply set_column_returns; [exact Hdf|].
    intros rw. apply py_join_returns, Hm.
Qed.

Lemma aligned_frame_returns bibles commentaries :
  (exists r, in_corpora bibles r) ->
  (forall source entries e,
      In (source, entries) commentaries -> In e entries -> alignable e = true) ->
  exists df, create_verse_aligned_dataset bibles commentaries = Ok df.
Proof.
  intros [r Hr] H. unfold create_verse_aligned_dataset.
  apply (proj2 (collect_refs_spec bibles)) in Hr.
  destruct (add_translations_return bibles
              (map (fun r => {| row_ref := r; row_cols := [] |})
                   (collect_refs bibles))) as (df & -> & Hdf).
  { destruct (collect_refs bibles); [destruct Hr|discriminate]. }
  simpl.
  destruct (for_each_returns (fun d : frame => d <> []) add_commentary commentaries)
    with (st := df) as (df' & Hdf' & _); [|exact Hdf|eauto].
  intros [source entries] st Hin Hst.
  apply add_commentary_returns; [exact Hst|].
  rewrite Forall_forall. intros e He. now apply (H source entries).
Qed.

(** X8: [create_verse_aligned_dataset] returns a frame when some corpus
    holds a verse and every commentary record either lacks one of [book],
    [chapter], [verse_start], or has an [int] as [verse_start] and as
    [verse_end] (when present), a hashable [book] and [chapter], and a [str]
    as [content]. *)
Theorem alignment_returns :
  forall (bibles : dict text (corpus text)) (commentaries : dict text (list entry)),
  (exists r, in_corpora bibles r) ->
  (forall source entries e,
      In (source, entries) commentaries -> In e entries -> alignable e = true) ->
  exists df, create_verse_aligned_dataset bibles commentaries = Ok df.
Proof. intros bibles commentaries. apply aligned_frame_returns. Qed.

Lemma alignment_returns_john :
  (exists r, in_corpora john_bibles r) /\
  (forall source entries e,
      In (source, entries) john_commentaries -> In e entries -> alignable e = true) /\
  exists df, create_verse_aligned_dataset john_bibles john_commentaries = Ok df.
Proof.
  assert (H0 : exists r, in_corpora john_bibles r).
  { exists (mk_ref (txt "John") 3 15).
    apply (proj2 (collect_refs_spec john_bibles)). left. reflexivity. }
  assert (H : forall source entries e,
             In (source, entries) john_commentaries -> In e entries ->
             alignable e = true).
  { intros source entries e [Hs|[]] He. injection Hs as <- <-.
    destruct He as [<-|[<-|[<-|[]]]]; reflexivity. }
  refine (conj H0 (conj H _)).
  exact (alignment_returns john_bibles john_commentaries H0 H).
Defined.

Lemma add_entry_raises e :
  unalignable e = true -> forall m, exists exn, add_entry m e = Raise exn.
Proof.
  unfold unalignable, add_entry, field. intros He m.
  destruct (dict_get text_eq_dec e (txt "book")) as [book|]; [|discriminate].
  destruct (dict_get text_eq_dec e (txt "chapter")) as [chapter|]; [|discriminate].
  destruct (dict_get text_eq_dec e (txt "verse_start")) as [vs|]; [|discriminate].
  apply negb_true_iff in He. unfold is_int in He. unfold bind.
  destruct (py_succ _) as [stop|exn]; [|eauto].
  destruct vs; try discriminate; simpl; eauto.
Qed.

(** X9: [create_verse_aligned_dataset] raises, whatever the corpora and the
    other records, as soon as one commentary record carries the three keys
    [book], [chapter] and [verse_start] with a [verse_start] that is no
    [int]: no frame is returned for the records that are sound. *)
Theorem alignment_raises :
  forall (bibles : dict text (corpus text)) (commentaries : dict text (list entry))
         (source : text) (entries : list entry) (e : entry),
  In (source, entries) commentaries -> In e entries -> unalignable e = true ->
  exists exn, create_verse_aligned_dataset bibles commentaries = Raise exn.
Proof.
  intros bibles commentaries source entries e Hs He Hbad.
  unfold create_verse_aligned_dataset. cbv zeta.
  destruct (for_each bibles add_translation _) as [df0|exn0]; [|simpl; eauto].
  simpl.
  apply (for_each_raises add_commentary (source, entries) commentaries Hs).
  intros df. unfold add_commentary. simpl.
  destruct (for_each_raises add_entry e entries He (add_entry_raises e Hbad) [])
    as [exn ->].
  simpl. eauto.
Qed.

Lemma alignment_raises_partial_reference :
  In (txt "S", [partial_reference_entry]) [ (txt "S", [partial_reference_entry]) ] /\
  In partial_reference_entry [partial_reference_entry] /\
  unalignable partial_reference_entry = true /\
  exists exn,
    create_verse_aligned_dataset john_bibles [ (txt "S", [partial_reference_entry]) ]
    = Raise exn.
Proof.
  refine (conj (or_introl eq_refl) (conj (or_introl eq_refl) (conj eq_refl _))).
  exact (alignment_raises john_bibles [ (txt "S", [partial_reference_entry]) ]
           (txt "S") [partial_reference_entry] partial_reference_entry
           (or_introl eq_refl) (or_introl eq_refl) eq_refl).
Defined.

(** ** Markup scripture *)

Lemma for_each_ok {A S} (body : S -> A -> result S) xs :
  (forall x, In x xs -> forall st, exists st', body st x = Ok st') ->
  forall st, exists st', for_each xs body st = Ok st'.
Proof.
  induction xs as [|x xs IH]; intros Hbody st; simpl; [eauto|].
  destruct (Hbody x (or_introl eq_refl) st) as [st1 ->]. simpl.
  apply IH. intros y Hy. apply Hbody. now right.
Qed.

Lemma for_each_ok_inv {A S} (body : S -> A -> result S) xs : forall st st',
  for_each xs body st = Ok st' ->
  forall x, In x xs -> exists st1 st2, body st1 x = Ok st2.
Proof.
  induction xs as [|y xs IH]; intros st st' H x Hx; [destruct Hx|].
  simpl in H. unfold bind in H.
  destruct (body st y) as [st1|] eqn:Hy; [|discriminate].
  destruct Hx as [->|Hx]; [eauto|]. apply (IH _ _ H x Hx).
Qed.

Section NumberedFacts.
Variable U : Unicode.

Lemma xml_verse_ok verse_elem :
  numbered U verse_elem <-> exists st st', xml_verse U st verse_elem = Ok st'.
Proof.
  unfold numbered, xml_verse, bind. split.
  - intros [z ->]. exists [], (dict_set Z.eq_dec [] z (clean_bible_text U (text_of verse_elem))).
    reflexivity.
  - intros (st & st' & H). destruct (int_of_attr U _); [eauto|discriminate].
Qed.

Lemma xml_chapter_ok chapter_elem :
  (numbered U chapter_elem /\
   forall verse_elem, In verse_elem (find_all chapter_elem (txt "verse")) ->
                      numbered U verse_elem) <->
  exists st st', xml_chapter U st chapter_elem = Ok st'.
Proof.
  unfold xml_chapter, bind. split.
  - intros [[z Hz] Hv]. rewrite Hz.
    destruct (for_each_ok (xml_verse U) (find_all chapter_elem (txt "verse"))) with (st := @nil (Z * text))
      as [cd Hcd].
    + intros v Hin st. apply Hv in Hin. destruct Hin as [n Hn].
      unfold xml_verse, bind. rewrite Hn. eauto.
    + rewrite Hcd. exists [], (dict_set Z.eq_dec [] z cd). reflexivity.
  - intros (st & st' & H). unfold numbered.
    destruct (int_of_attr U (get_attr chapter_elem (txt "number"))) as [z|];
      [|discriminate].
    split; [eauto|].
    destruct (for_each _ (xml_verse U) []) as [cd|] eqn:Hcd; [|discriminate].
    intros v Hin. apply xml_verse_ok. apply (for_each_ok_inv _ _ _ _ Hcd v Hin).
Qed.

Lemma xml_bible_ok doc :
  scripture_numbered U doc <-> exists bible_data, _process_xml_bible U doc = Ok bible_data.
Proof.
  unfold scripture_numbered, _process_xml_bible. split.
  - intros H. apply for_each_ok. intros b Hb st. unfold xml_book, bind.
    destruct (for_each_ok (xml_chapter U) (find_all b (txt "chapter"))) with (st := @nil (Z * chapter_t))
      as [bd Hbd].
    + intros c Hc st0. destruct (proj1 (xml_chapter_ok c) (H b c Hb Hc)) as (s1 & s2 & Hs).
      unfold xml_chapter, bind in *.
      destruct (int_of_attr U (get_attr c (txt "number"))); [|discriminate].
      destruct (for_each _ (xml_verse U) []); [eauto|discriminate].
    + rewrite Hbd. eauto.
  - intros [bd H] b c Hb Hc.
    destruct (for_each_ok_inv _ _ _ _ H b Hb) as (s1 & s2 & Hbook).
    unfold xml_book, bind in Hbook.
    destruct (for_each _ (xml_chapter U) []) as [cd|] eqn:Hcd; [|discriminate].
    apply xml_chapter_ok. apply (for_each_ok_inv _ _ _ _ Hcd c Hc).
Qed.
End NumberedFacts.

(** X10: [_process_xml_bible] returns a corpus exactly when every [chapter]
    element of a [book] element, and every [verse] element of such a
    chapter, has a [number] attribute that [int()] accepts; otherwise it
    raises, with no corpus for the books that are sound. *)
Theorem xml_bible_returns_iff_numbered : forall (U : Unicode) (doc : soup),
  (exists bible_data, _process_xml_bible U doc = Ok bible_data) <->
  scripture_numbered U doc.
Proof. intros U doc. symmetry. apply xml_bible_ok. Qed.

(** A loop that stores under [kf x] what [vf x] is. *)
Lemma for_each_last_wins {A K V} (K_dec : forall a b : K, {a = b} + {a <> b})
    (kf : A -> result K) (vf : A -> result V)
    (body : dict K V -> A -> result (dict K V)) :
  (forall st x, body st x =
                bind (kf x) (fun k => bind (vf x) (fun v => Ok (dict_set K_dec st k v)))) ->
  forall xs st st' key,
    for_each xs body st = Ok st' ->
    dict_get K_dec st' key =
    match last_such (fun x => match kf x with
                              | Ok k => if K_dec k key then true else false
                              | Raise _ => false
                              end) xs with
    | Some x => match vf x with Ok v => Some v | Raise _ => None end
    | None => dict_get K_dec st key
    end.
Proof.
  intros Hbody. induction xs as [|x xs IH]; intros st st' key H; simpl in H.
  - now injection H as <-.
  - unfold bind in H. destruct (body st x) as [st1|] eqn:Hx; [|discriminate].
    rewrite (IH _ _ key H). simpl.
    destruct (last_such _ xs) as [y|]; [reflexivity|].
    rewrite Hbody in Hx. unfold bind in Hx.
    destruct (kf x) as [k|] eqn:Hk; [|discriminate].
    destruct (vf x) as [v|] eqn:Hv; [|discriminate].
    injection Hx as <-.
    destruct (K_dec k key) as [->|Hne].
    + rewrite Hv. apply dict_get_set_same.
    + now apply dict_get_set_other.
Qed.

Lemma last_such_In {A} (p : A -> bool) xs x :
  last_such p xs = Some x -> In x xs.
Proof.
  induction xs as [|y xs IH]; simpl; [discriminate|].
  destruct (last_such p xs) as [z|].
  - intros H. right. now apply IH.
  - destruct (p y); [|discriminate]. intros H. injection H as ->. now left.
Qed.

Section MarkupLookupFacts.
Variable U : Unicode.

Lemma has_number_test z n :
  has_number U z n =
  match int_of_attr U (get_attr n (txt "number")) with
  | Ok k => if Z.eq_dec k z then true else false
  | Raise _ => false
  end.
Proof.
  unfold has_number. destruct (int_of_attr U _) as [k|]; [|reflexivity].
  destruct (Z.eq_dec k z) as [->|Hne]; [apply Z.eqb_refl|now apply Z.eqb_neq].
Qed.

Lemma last_such_ext {A} (p q : A -> bool) xs :
  (forall x, p x = q x) -> last_such p xs = last_such q xs.
Proof.
  intros H. induction xs as [|x xs IH]; [reflexivity|]. simpl.
  now rewrite IH, H.
Qed.

Lemma xml_verses_lookup chapter_elem chapter_data verse :
  for_each (find_all chapter_elem (txt "verse")) (xml_verse U) [] = Ok chapter_data ->
  dict_get Z.eq_dec chapter_data verse =
  match last_such (has_number U verse) (find_all chapter_elem (txt "verse")) with
  | Some verse_elem => Some (clean_bible_text U (text_of verse_elem))
  | None => None
  end.
Proof.
  intros H.
  rewrite (for_each_last_wins Z.eq_dec
             (fun v => int_of_attr U (get_attr v (txt "number")))
             (fun v => Ok (clean_bible_text U (text_of v)))
             (xml_verse U) (fun _ _ => eq_refl) _ _ _ verse H).
  rewrite (last_such_ext _ (has_number U verse)) by (intros; symmetry; apply has_number_test).
  reflexivity.
Qed.

Lemma xml_chapters_lookup book_elem book_data chapter :
  for_each (find_all book_elem (txt "chapter")) (xml_chapter U) [] = Ok book_data ->
  dict_get Z.eq_dec book_data chapter =
  match last_such (has_number U chapter) (find_all book_elem (txt "chapter")) with
  | Some chapter_elem =>
      match for_each (find_all chapter_elem (txt "verse")) (xml_verse U) [] with
      | Ok chapter_data => Some chapter_data
      | Raise _ => None
      end
  | None => None
  end.
Proof.
  intros H.
  rewrite (for_each_last_wins Z.eq_dec
             (fun c => int_of_attr U (get_attr c (txt "number")))
             (fun c => for_each (find_all c (txt "verse")) (xml_verse U) [])
             (xml_chapter U) (fun _ _ => eq_refl) _ _ _ chapter H).
  rewrite (last_such_ext _ (has_number U chapter)) by (intros; symmetry; apply has_number_test).
  reflexivity.
Qed.

Lemma xml_books_lookup doc bible_data book :
  _process_xml_bible U doc = Ok bible_data ->
  dict_get hkey_dec bible_data book =
  match last_such (named book) (soup_find_all doc (txt "book")) with
  | Some book_elem =>
      match for_each (find_all book_elem (txt "chapter")) (xml_chapter U) [] with
      | Ok book_data => Some book_data
      | Raise _ => None
      end
  | None => None
  end.
Proof.
  intros H. unfold _process_xml_bible in H.
  rewrite (for_each_last_wins hkey_dec
             (fun b => Ok (book_key b))
             (fun b => for_each (find_all b (txt "chapter")) (xml_chapter U) [])
             (xml_book U) (fun _ _ => eq_refl) _ _ _ book H).
  reflexivity.
Qed.
End MarkupLookupFacts.

(** X11: in the corpus [_process_xml_bible] returns, the text under a (book,
    chapter, verse) key is the cleaned text of the last [verse] element with
    this number, within the last [chapter] element with this number, within
    the last [book] element with this name: a repeated book or chapter
    replaces the earlier one as a whole, its verses are not merged in. *)
Theorem xml_bible_last_element_wins :
  forall (U : Unicode) (doc : soup) (bible_data : corpus hkey)
         (book : hkey) (chapter verse : Z),
  _process_xml_bible U doc = Ok bible_data ->
  dict_get Z.eq_dec
    (dict_get_or Z.eq_dec (dict_get_or hkey_dec bible_data book []) chapter [])
    verse
  = markup_verse U doc book chapter verse.
Proof.
  intros U doc bible_data book chapter verse H.
  unfold markup_verse, dict_get_or. rewrite (xml_books_lookup U doc _ book H).
  destruct (last_such (named book) _) as [b|] eqn:Hb; [|reflexivity].
  destruct (for_each_ok_inv _ _ _ _ H b (last_such_In _ _ _ Hb)) as (s1 & s2 & Hbook).
  unfold xml_book, bind in Hbook.
  destruct (for_each (find_all b (txt "chapter")) (xml_chapter U) []) as [bd|] eqn:Hbd;
    [|discriminate].
  rewrite (xml_chapters_lookup U b bd chapter Hbd).
  destruct (last_such (has_number U chapter) _) as [c|] eqn:Hc; [|reflexivity].
  destruct (for_each_ok_inv _ _ _ _ Hbd c (last_such_In _ _ _ Hc)) as (t1 & t2 & Hch).
  unfold xml_chapter, bind in Hch.
  destruct (int_of_attr U (get_attr c (txt "number"))); [|discriminate].
  destruct (for_each (find_all c (txt "verse")) (xml_verse U) []) as [cd|] eqn:Hcd;
    [|discriminate].
  apply (xml_verses_lookup U c cd verse Hcd).
Qed.

Lemma xml_bible_last_element_wins_repeated :
  _process_xml_bible ascii_only repeated_verse_doc
    = Ok [ (HStr (txt "Genesis"), [ (1%Z, [ (1%Z, txt "At first") ]) ]) ] /\
  dict_get Z.eq_dec
    (dict_get_or Z.eq_dec
       (dict_get_or hkey_dec
          [ (HStr (txt "Genesis"), [ (1%Z, [ (1%Z, txt "At first") ]) ]) ]
          (HStr (txt "Genesis")) []) 1%Z []) 1%Z
  = markup_verse ascii_only repeated_verse_doc (HStr (txt "Genesis")) 1 1.
Proof.
  refine (conj eq_refl _).
  exact (xml_bible_last_element_wins ascii_only repeated_verse_doc
           [ (HStr (txt "Genesis"), [ (1%Z, [ (1%Z, txt "At first") ]) ]) ]
           (HStr (txt "Genesis")) 1%Z 1%Z eq_refl).
Defined.

(** ** Plain-text commentary *)

Lemma take_while_all p s : Forall (fun c => p c = true) (take_while p s).
Proof.
  induction s as [|c s IH]; simpl; [constructor|].
  destruct (p c) eqn:Hc; constructor; assumption.
Qed.

Lemma take_drop p s : take_while p s ++ drop_while p s = s.
Proof.
  induction s as [|c s IH]; simpl; [reflexivity|].
  destruct (p c); simpl; [now rewrite IH|reflexivity].
Qed.

Lemma drop_while_stops p s : stops p (drop_while p s).
Proof.
  induction s as [|c s IH]; simpl; [exact I|].
  destruct (p c) eqn:Hc; [exact IH|exact Hc].
Qed.

Lemma take_while_app_stop p a b :
  Forall (fun c => p c = true) a -> stops p b -> take_while p (a ++ b) = a.
Proof.
  induction 1 as [|c a Hc Ha IH]; intros Hb; simpl.
  - destruct b as [|c b]; [reflexivity|]. simpl in *. now rewrite Hb.
  - rewrite Hc. now rewrite IH.
Qed.

Lemma drop_while_app_stop p a b :
  Forall (fun c => p c = true) a -> stops p b -> drop_while p (a ++ b) = b.
Proof.
  induction 1 as [|c a Hc Ha IH]; intros Hb; simpl.
  - destruct b as [|c b]; [reflexivity|]. simpl in *. now rewrite Hb.
  - rewrite Hc. now apply IH.
Qed.

Lemma stops_app p a b : a <> [] -> stops p a -> stops p (a ++ b).
Proof. destruct a; [congruence|]. intros _ H. exact H. Qed.

Lemma skipn_app_exact {A} (a b : list A) : skipn (length a) (a ++ b) = b.
Proof. induction a; simpl; auto. Qed.

Lemma firstn_app_exact {A} (a b : list A) n :
  firstn (length a + n) (a ++ b) = a ++ firstn n b.
Proof. induction a; simpl; [reflexivity|]. now f_equal. Qed.

Lemma opt_numeral_prefix s :
  s = opt_numeral s ++ skipn (length (opt_numeral s)) s.
Proof.
  destruct s as [|c s]; [reflexivity|]. simpl.
  destruct (in_range 49 51 c); reflexivity.
Qed.

Lemma opt_numeral_head a b :
  hd_error a = hd_error b -> opt_numeral a = opt_numeral b.
Proof.
  destruct a, b; simpl; try discriminate; [reflexivity|].
  intros H. injection H as ->. reflexivity.
Qed.

Lemma hd_error_app {A} (a t : list A) : a <> [] -> hd_error (a ++ t) = hd_error a.
Proof. destruct a; [congruence|reflexivity]. Qed.

Lemma firstn_take_while p s : firstn (length (take_while p s)) s = take_while p s.
Proof.
  induction s as [|c s IH]; simpl; [reflexivity|].
  destruct (p c); simpl; [now rewrite IH|reflexivity].
Qed.

Section RefFacts.
Variable U : Unicode.

Lemma ref_head_intro d ws name ws2 chapter verse rest :
  ref_parts U d ws name ws2 chapter verse -> stops (is_digit U) rest ->
  ref_head U (ref_text d ws name ws2 chapter verse rest)
  = Some (d ++ ws ++ name, chapter, verse, rest).
Proof.
  intros (Hd & Hws & Hname & Hn0 & Hns & Hws2 & Hw0 & Hwl & Hch & Hc0 & Hcs & Hv & Hv0)
         Hrest.
  unfold ref_head, ref_text. cbv zeta.
  rewrite (Hd (ws2 ++ chapter ++ 58%N :: verse ++ rest)).
  rewrite skipn_app_exact.
  rewrite (take_while_app_stop is_space ws), (drop_while_app_stop is_space ws);
    try assumption; try (now apply stops_app).
  rewrite (take_while_app_stop is_ascii_letter name),
          (drop_while_app_stop is_ascii_letter name);
    try assumption; try (now apply stops_app).
  rewrite (take_while_app_stop is_space ws2), (drop_while_app_stop is_space ws2);
    try assumption; try (now apply stops_app).
  rewrite (take_while_app_stop (is_digit U) chapter),
          (drop_while_app_stop (is_digit U) chapter);
    try assumption; try reflexivity.
  cbn [tl].
  rewrite (take_while_app_stop (is_digit U) verse),
          (drop_while_app_stop (is_digit U) verse); try assumption.
  destruct name; [congruence|]. destruct ws2; [congruence|].
  destruct chapter; [congruence|]. destruct verse; [congruence|].
  reflexivity.
Qed.

Lemma ref_head_inv s book chapter verse rest :
  ref_head U s = Some (book, chapter, verse, rest) ->
  exists d ws name ws2,
    ref_parts U d ws name ws2 chapter verse /\
    book = d ++ ws ++ name /\
    s = ref_text d ws name ws2 chapter verse rest /\
    stops (is_digit U) rest.
Proof.
  unfold ref_head. cbv zeta.
  set (d := opt_numeral s). set (s1 := skipn (length d) s).
  set (ws := take_while is_space s1). set (s2 := drop_while is_space s1).
  set (name := take_while is_ascii_letter s2).
  set (s3 := drop_while is_ascii_letter s2).
  set (ws2 := take_while is_space s3). set (s4 := drop_while is_space s3).
  set (ch := take_while (is_digit U) s4).
  intros H.
  assert (E0 : s = d ++ s1) by apply opt_numeral_prefix.
  assert (E1 : s1 = ws ++ s2) by (symmetry; apply take_drop).
  assert (E2 : s2 = name ++ s3) by (symmetry; apply take_drop).
  assert (E3 : s3 = ws2 ++ s4) by (symmetry; apply take_drop).
  assert (E4 : s4 = ch ++ drop_while (is_digit U) s4) by (symmetry; apply take_drop).
  assert (S2 : stops is_space s2) by apply drop_while_stops.
  assert (S3 : stops is_ascii_letter s3) by apply drop_while_stops.
  assert (S4 : stops is_space s4) by apply drop_while_stops.
  destruct name as [|n0 name'] eqn:Ename; [discriminate|].
  destruct ws2 as [|w0 ws2'] eqn:Ews2; [discriminate|].
  destruct ch as [|c0 ch'] eqn:Ech; [discriminate|].
  destruct (drop_while (is_digit U) s4) as [|colon s5] eqn:Es5; [discriminate|].
  cbn [tl] in H.
  destruct (take_while (is_digit U) s5) as [|v0 v'] eqn:Ev; [discriminate|].
  destruct (colon =? 58)%N eqn:Ecolon; [|discriminate].
  apply N.eqb_eq in Ecolon. subst colon.
  injection H as <- <- <- <-.
  exists d, ws, (n0 :: name'), (w0 :: ws2').
  assert (E5 : s5 = (v0 :: v') ++ drop_while (is_digit U) s5).
  { rewrite <- Ev. symmetry. apply take_drop. }
  split; [|split; [reflexivity|split]].
  - unfold ref_parts. repeat split.
    + intros t. transitivity (opt_numeral s); [|reflexivity].
      apply opt_numeral_head.
      assert (Es : s = d ++ ws ++ (n0 :: name') ++ s3).
      { rewrite E0 at 1. rewrite E1, E2. reflexivity. }
      rewrite Es. destruct d; [destruct ws|]; reflexivity.
    + apply take_while_all.
    + rewrite <- Ename. apply take_while_all.
    + discriminate.
    + rewrite E2 in S2. exact S2.
    + rewrite <- Ews2. apply take_while_all.
    + discriminate.
    + rewrite E3 in S3. exact S3.
    + rewrite <- Ech. apply take_while_all.
    + discriminate.
    + rewrite E4 in S4. exact S4.
    + rewrite <- Ev. apply take_while_all.
    + discriminate.
  - unfold ref_text. rewrite E0 at 1. rewrite E1, E2, E3, E4. rewrite E5 at 1.
    reflexivity.
  - apply drop_while_stops.
Qed.
End RefFacts.

Lemma search_head re s r : re s = Some r -> search re s = Some r.
Proof. intros H. destruct s; simpl; now rewrite H. Qed.

Lemma search_inv re : forall s r,
  search re s = Some r -> exists a b, s = a ++ b /\ re b = Some r.
Proof.
  induction s as [|c s IH]; intros r H; simpl in H.
  - destruct (re []) eqn:E; [|discriminate]. injection H as ->. now exists [], [].
  - destruct (re (c :: s)) eqn:E.
    + injection H as ->. now exists [], (c :: s).
    + destruct (IH r H) as (a & b & -> & Hb). now exists (c :: a), b.
Qed.

Lemma is_prefix_spec r : forall t,
  is_prefix r t = true <-> exists t', t = r ++ t'.
Proof.
  induction r as [|a r IH]; intros t; simpl.
  - split; [intros _; now exists t|reflexivity].
  - destruct t as [|b t].
    + split; [discriminate|]. intros [t' H]. discriminate.
    + rewrite andb_true_iff, N.eqb_eq, IH. split.
      * intros [-> [t' ->]]. now exists t'.
      * intros [t' H]. injection H as -> ->. split; [reflexivity|now exists t'].
Qed.

Lemma rstrip_nil s : rstrip s = [] -> Forall (fun c => is_space c = true) s.
Proof.
  induction s as [|c s IH]; [constructor|]. cbn [rstrip].
  destruct (rstrip s) as [|d r]; [|discriminate].
  destruct (is_space c) eqn:Hc; [|discriminate].
  intros _. constructor; [exact Hc|now apply IH].
Qed.

Lemma strip_nil s : strip s = [] -> Forall (fun c => is_space c = true) s.
Proof.
  unfold strip, lstrip. intros H. apply rstrip_nil in H.
  rewrite <- (take_drop is_space s). apply Forall_app. split; [apply take_while_all|exact H].
Qed.

Lemma letter_not_space c : is_ascii_letter c = true -> is_space c = false.
Proof.
  unfold is_ascii_letter, is_space, in_range. intros H.
  repeat rewrite orb_true_iff in H. repeat rewrite andb_true_iff in H.
  repeat rewrite N.leb_le in H.
  repeat rewrite orb_false_iff. repeat rewrite andb_false_iff.
  repeat rewrite N.leb_gt. repeat rewrite N.eqb_neq. lia.
Qed.

Section CommentaryFacts.
Variable U : Unicode.

(** The shape of the text [ref_span] returns. *)
Lemma ref_span_inv s r :
  ref_span U s = Some r ->
  exists d ws name ws2 chapter verse tail rest,
    ref_parts U d ws name ws2 chapter verse /\
    r = ref_text d ws name ws2 chapter verse tail /\
    s = r ++ rest /\
    ref_head U s = Some (d ++ ws ++ name, chapter, verse, tail ++ rest) /\
    (tail = [] /\ opt_range U rest = None \/
     exists dd, tail = 45%N :: dd /\ dd <> [] /\
                Forall (fun c => is_digit U c = true) dd /\
                opt_range U (tail ++ rest) = Some dd /\ stops (is_digit U) rest).
Proof.
  unfold ref_span. destruct (ref_head U s) as [[[[book chapter] verse] rest0]|] eqn:Hh;
    [|discriminate].
  destruct (ref_head_inv U s _ _ _ _ Hh) as (d & ws & name & ws2 & Hp & -> & Hs & Hstop).
  intros H. injection H as <-.
  assert (Hlen : length s - length rest0 =
                 length (ref_text d ws name ws2 chapter verse [])).
  { rewrite Hs. unfold ref_text. repeat (rewrite ?length_app; cbn [length]). lia. }
  assert (Hs' : s = ref_text d ws name ws2 chapter verse [] ++ rest0).
  { rewrite Hs. unfold ref_text. repeat (rewrite <- ?app_assoc; cbn [app]).
    reflexivity. }
  assert (Hr : forall t, ref_text d ws name ws2 chapter verse [] ++ t
                         = ref_text d ws name ws2 chapter verse t).
  { intros t. unfold ref_text. repeat (rewrite <- ?app_assoc; cbn [app]). reflexivity. }
  assert (Hfirst : forall n, firstn (length s - length rest0 + n) s
                             = ref_text d ws name ws2 chapter verse (firstn n rest0)).
  { intros n. rewrite Hlen, Hs', firstn_app_exact. apply Hr. }
  rewrite Hfirst.
  destruct (opt_range U rest0) as [got|] eqn:Hrange.
  - unfold opt_range in Hrange. destruct rest0 as [|c rest1]; [discriminate|].
    destruct (c =? 45)%N eqn:Hc; [|discriminate]. apply N.eqb_eq in Hc. subst c.
    set (dd := take_while (is_digit U) rest1) in *.
    assert (Hall : Forall (fun c => is_digit U c = true) dd) by apply take_while_all.
    assert (Hsplit : rest1 = dd ++ drop_while (is_digit U) rest1)
      by (symmetry; apply take_drop).
    assert (Hfd : firstn (length dd) rest1 = dd) by apply firstn_take_while.
    assert (Hstop' : stops (is_digit U) (drop_while (is_digit U) rest1))
      by apply drop_while_stops.
    assert (Hopt : opt_range U (45%N :: rest1) = Some dd).
    { unfold opt_range. simpl. fold dd. destruct dd; [discriminate|reflexivity]. }
    clearbody dd.
    destruct dd as [|d0 dd']; [discriminate|]. injection Hrange as <-.
    exists d, ws, name, ws2, chapter, verse, (45%N :: d0 :: dd'),
           (drop_while (is_digit U) rest1).
    cbn [firstn]. rewrite Hfd.
    assert (E : @app char (45%N :: d0 :: dd') (drop_while (is_digit U) rest1)
                = 45%N :: rest1).
    { rewrite Hsplit at 2. reflexivity. }
    split; [exact Hp|]. split; [reflexivity|]. split.
    { rewrite <- Hr, <- app_assoc. etransitivity; [exact Hs'|]. f_equal.
      symmetry. exact E. }
    split; [do 2 f_equal; symmetry; exact E|].
    right. exists (d0 :: dd').
    split; [reflexivity|]. split; [discriminate|].
    split; [exact Hall|]. split; [|exact Hstop'].
    etransitivity; [|exact Hopt]. f_equal. exact E.
  - exists d, ws, name, ws2, chapter, verse, [], rest0. simpl.
    split; [exact Hp|]. split; [reflexivity|]. split; [exact Hs'|].
    split; [reflexivity|]. left. auto.
Qed.

(** The second pattern matches every text the first one returned: the
    branch of the unparsed reference is never taken. *)
Lemma ref_span_match s r :
  ref_span U s = Some r ->
  exists book chapter verse range, ref_match U r = Some (book, chapter, verse, range).
Proof.
  intros H.
  destruct (ref_span_inv s r H)
    as (d & ws & name & ws2 & chapter & verse & tail & rest & Hp & -> & _ & _ & Ht).
  unfold ref_match. rewrite (ref_head_intro U d ws name ws2 chapter verse tail Hp).
  - eauto.
  - destruct Ht as [[-> _]|(dd & -> & _)]; [exact I|reflexivity].
Qed.

(** A text that begins with a reference is matched at its head. *)
Lemma ref_span_prefix s r t :
  ref_span U s = Some r -> ref_span U (r ++ t) <> None.
Proof.
  intros H.
  destruct (ref_span_inv s r H)
    as (d & ws & name & ws2 & chapter & verse & tail & rest & Hp & -> & _ & _ & Ht).
  unfold ref_span.
  destruct Ht as [[-> _]|(dd & -> & _)].
  - assert (E : ref_text d ws name ws2 chapter verse [] ++ t
              = ref_text d ws name ws2 chapter (verse ++ take_while (is_digit U) t)
                  (drop_while (is_digit U) t)).
    { unfold ref_text. repeat (rewrite <- ?app_assoc; cbn [app]).
      now rewrite take_drop. }
    rewrite E. rewrite (ref_head_intro U).
    + discriminate.
    + destruct Hp as (H1 & H2 & H3 & H4 & H5 & H6 & H7 & H8 & H9 & H10 & H11 & H12 & H13).
      unfold ref_parts. repeat split; try assumption.
      * apply Forall_app. split; [assumption|apply take_while_all].
      * destruct verse; [congruence|discriminate].
    + apply drop_while_stops.
  - assert (E : ref_text d ws name ws2 chapter verse (45%N :: dd) ++ t
              = ref_text d ws name ws2 chapter verse (45%N :: dd ++ t)).
    { unfold ref_text. repeat (rewrite <- ?app_assoc; cbn [app]). reflexivity. }
    rewrite E. rewrite (ref_head_intro U _ _ _ _ _ _ _ Hp); [discriminate|reflexivity].
Qed.

Lemma ref_span_not_blank s r rest :
  ref_span U s = Some r -> forall pre, strip (pre ++ r ++ rest) <> [].
Proof.
  intros H pre Hs. apply strip_nil in Hs.
  destruct (ref_span_inv s r H)
    as (d & ws & name & ws2 & chapter & verse & tail & rest' & Hp & -> & _).
  destruct Hp as (_ & _ & Hname & Hn0 & _).
  apply Forall_app in Hs. destruct Hs as [_ Hs].
  apply Forall_app in Hs. destruct Hs as [Hs _]. unfold ref_text in Hs.
  apply Forall_app in Hs. destruct Hs as [_ Hs].
  apply Forall_app in Hs. destruct Hs as [_ Hs].
  apply Forall_app in Hs. destruct Hs as [Hs _].
  destruct name as [|n0 name]; [congruence|].
  inversion Hs as [|? ? Hsp _]; subst. inversion Hname as [|? ? Hl _]; subst.
  rewrite (letter_not_space _ Hl) in Hsp. discriminate.
Qed.

Lemma search_found : forall pre r post,
  ref_span U (r ++ post) = Some r ->
  no_match_in (ref_span U) pre (r ++ post) = true ->
  search (ref_span U) (pre ++ r ++ post) = Some r /\
  remove_first r (pre ++ r ++ post) = pre ++ post.
Proof.
  induction pre as [|c pre IH]; intros r post Hr Hpre.
  - split.
    + now apply search_head.
    + simpl. destruct (r ++ post) as [|x l] eqn:E.
      * apply app_eq_nil in E. destruct E as [_ ->]. reflexivity.
      * cbn [remove_first]. rewrite <- E.
        rewrite (proj2 (is_prefix_spec r (r ++ post))) by (now exists post).
        apply skipn_app_exact.
  - cbn [no_match_in] in Hpre.
    destruct (ref_span U ((c :: pre) ++ r ++ post)) eqn:E; [discriminate|].
    destruct (IH r post Hr Hpre) as [IH1 IH2]. split.
    + cbn [app search] in *. rewrite E. exact IH1.
    + cbn [app remove_first] in *.
      destruct (is_prefix r (c :: pre ++ r ++ post)) eqn:Hp.
      * apply is_prefix_spec in Hp. destruct Hp as [t' Ht'].
        rewrite Ht' in E. now apply (ref_span_prefix _ _ t') in Hr.
      * now rewrite IH2.
Qed.

Lemma txt_section_record source entries entries' section :
  txt_section U source entries section = Ok entries' ->
  entries' = entries \/
  exists e, entries' = entries ++ [e] /\ plain_record source e.
Proof.
  unfold txt_section. destruct (strip section).
  { intros H. injection H as <-. now left. }
  destruct (search (ref_span U) section) as [reference|] eqn:Hs.
  - destruct (search_inv _ _ _ Hs) as (a & b & _ & Hb).
    destruct (ref_span_match b reference Hb) as (book & ch & v & range & ->).
    unfold bind.
    destruct (int_of_text U ch) as [c1|]; [|discriminate].
    destruct (int_of_text U v) as [c2|]; [|discriminate].
    destruct (int_of_text U _) as [c3|]; [|discriminate].
    intros H. injection H as <-. right.
    eexists. split; [reflexivity|].
    unfold plain_record, field. simpl.
    repeat split; eauto. right. repeat eexists.
  - intros H. injection H as <-. right.
    eexists. split; [reflexivity|].
    unfold plain_record, field. simpl. repeat split; eauto.
Qed.

Lemma txt_sections_records source sections : forall entries entries',
  for_each sections (txt_section U source) entries = Ok entries' ->
  Forall (plain_record source) entries ->
  Forall (plain_record source) entries'.
Proof.
  induction sections as [|s sections IH]; intros entries entries' Hok H;
    simpl in Hok.
  - now injection Hok as <-.
  - unfold bind in Hok.
    destruct (txt_section U source entries s) as [entries1|] eqn:H1; [|discriminate].
    apply (IH _ _ Hok).
    destruct (txt_section_record _ _ _ _ H1) as [->|(e & -> & He)].
    + exact H.
    + apply Forall_app. split; [exact H|]. constructor; [exact He|constructor].
Qed.

Lemma plain_record_alignable source e : plain_record source e -> alignable e = true.
Proof.
  intros (_ & (c & Hc) & _ & [(Hb & _)|(b & ch & vs & ve & Hb & Hch & Hvs & Hve)]).
  - unfold alignable. now rewrite Hb.
  - unfold alignable. rewrite Hb, Hch, Hvs, Hc. unfold dict_get_or.
    unfold field in Hve. rewrite Hve. reflexivity.
Qed.
End CommentaryFacts.

(** X12: when [_process_txt_commentary] returns, every record has [source]
    (the argument) and a [str] [content], and either none of [book],
    [chapter], [verse_start], [verse_end] or all four, [book] a [str] and
    the other three [int]; no record has a [reference] key: the text the
    search pattern found is always parsed by the second pattern, so the
    branch that stores the raw reference is never taken.  (The parser
    raises when [int()] refuses a run of digits, which it does beyond 4300
    digits.) *)
Theorem txt_commentary_records :
  forall (U : Unicode) (content source : text) (entries : list entry),
  _process_txt_commentary U content source = Ok entries ->
  Forall (plain_record source) entries.
Proof.
  intros U content source entries H. unfold _process_txt_commentary in H.
  apply (txt_sections_records U _ _ _ _ H). constructor.
Qed.

Lemma txt_commentary_records_john :
  _process_txt_commentary ascii_only john_note (txt "S") = Ok john_note_entries /\
  Forall (plain_record (txt "S")) john_note_entries.
Proof.
  refine (conj eq_refl _).
  exact (txt_commentary_records ascii_only john_note (txt "S") john_note_entries
           eq_refl).
Defined.

(** X13: [create_verse_aligned_dataset] returns a frame when some corpus
    holds a verse and every commentary is the list of records
    [_process_txt_commentary] returned for some text under the name of the
    source: the records of the plain-text parser never make alignment
    raise. *)
Theorem txt_commentary_aligns :
  forall (U : Unicode) (bibles : dict text (corpus text))
         (files : list (text * text)) (commentaries : dict text (list entry)),
  (exists r, in_corpora bibles r) ->
  Forall2 (fun f c =>
             fst c = fst f /\
             _process_txt_commentary U (snd f) (fst f) = Ok (snd c))
          files commentaries ->
  exists df, create_verse_aligned_dataset bibles commentaries = Ok df.
Proof.
  intros U bibles files commentaries Hr Hfiles.
  apply aligned_frame_returns; [exact Hr|].
  intros source entries e Hin He.
  destruct (Forall2_In_right _ _ _ _ Hfiles Hin) as (f & _ & Hsrc & Hok).
  simpl in Hsrc, Hok. apply (plain_record_alignable (fst f)).
  assert (H : Forall (plain_record (fst f)) entries).
  { unfold _process_txt_commentary in Hok.
    apply (txt_sections_records U _ _ _ _ Hok). constructor. }
  rewrite Forall_forall in H. now apply H.
Qed.

Lemma txt_commentary_aligns_john :
  (exists r, in_corpora john_bibles r) /\
  Forall2 (fun f c =>
             fst c = fst f /\
             _process_txt_commentary ascii_only (snd f) (fst f) = Ok (snd c))
          [ (txt "S", john_note) ] [ (txt "S", john_note_entries) ] /\
  exists df,
    create_verse_aligned_dataset john_bibles [ (txt "S", john_note_entries) ] = Ok df.
Proof.
  assert (H0 : exists r, in_corpora john_bibles r).
  { exists (mk_ref (txt "John") 3 15).
    apply (proj2 (collect_refs_spec john_bibles)). left. reflexivity. }
  assert (H1 : Forall2 (fun f c =>
                          fst c = fst f /\
                          _process_txt_commentary ascii_only (snd f) (fst f)
                          = Ok (snd c))
                       [ (txt "S", john_note) ] [ (txt "S", john_note_entries) ]).
  { constructor; [split; reflexivity|constructor]. }
  refine (conj H0 (conj H1 _)).
  exact (txt_commentary_aligns ascii_only john_bibles [ (txt "S", john_note) ]
           [ (txt "S", john_note_entries) ] H0 H1).
Defined.

(** X14: for a section in which the leftmost match of the reference pattern
    is [r], found after [pre] and followed by [post], one turn of the loop
    of [_process_txt_commentary], when it returns, has appended one record,
    with a [book], whose [content] is the cleaned form of [pre ++ post]
    stripped: [str.replace] cuts the reference out at the very place where
    it was found, no earlier look-alike exists, and nothing else of the
    section is lost. *)
Theorem txt_section_cuts_reference :
  forall (U : Unicode) (source : text) (entries entries' : list entry)
         (pre r post : text),
  ref_span U (r ++ post) = Some r ->
  no_match_in (ref_span U) pre (r ++ post) = true ->
  txt_section U source entries (pre ++ r ++ post) = Ok entries' ->
  exists e book,
    entries' = entries ++ [e] /\
    field e "content"
      = Some (VStr (clean_commentary_text U (strip (pre ++ post)))) /\
    field e "book" = Some (VStr book).
Proof.
  intros U source entries entries' pre r post Hr Hpre.
  destruct (search_found U pre r post Hr Hpre) as [Hs Hrm].
  destruct (ref_span_match U _ _ Hr) as (book & ch & v & range & Hm).
  unfold txt_section.
  destruct (strip (pre ++ r ++ post)) eqn:Hblank.
  - now apply (ref_span_not_blank U _ _ post Hr pre) in Hblank.
  - rewrite Hs, Hm, Hrm. unfold bind.
    destruct (int_of_text U ch) as [c1|]; [|discriminate].
    destruct (int_of_text U v) as [c2|]; [|discriminate].
    destruct (int_of_text U _) as [c3|]; [|discriminate].
    intros H. injection H as <-. eexists. exists book.
    split; [reflexivity|]. split; reflexivity.
Qed.

Lemma txt_section_cuts_reference_john :
  ref_span ascii_only (txt " John 3:16" ++ txt " on the lord") = Some (txt " John 3:16") /\
  no_match_in (ref_span ascii_only) (txt "See") (txt " John 3:16" ++ txt " on the lord")
    = true /\
  txt_section ascii_only (txt "S") []
    (txt "See" ++ txt " John 3:16" ++ txt " on the lord") = Ok john_note_entries /\
  exists e book,
    john_note_entries = [] ++ [e] /\
    field e "content"
      = Some (VStr (clean_commentary_text ascii_only
                      (strip (txt "See" ++ txt " on the lord")))) /\
    field e "book" = Some (VStr book).
Proof.
  refine (conj eq_refl (conj eq_refl (conj eq_refl _))).
  exact (txt_section_cuts_reference ascii_only (txt "S") [] john_note_entries
           (txt "See") (txt " John 3:16") (txt " on the lord")
           eq_refl eq_refl eq_refl).
Defined.

(** ** When the plain-text scripture parser returns *)

Lemma txt_verse_ok U m :
  (exists bible_data bible_data', txt_verse U bible_data m = Ok bible_data') <->
  match_key U m <> None.
Proof.
  unfold txt_verse, match_key, bind. split.
  - intros (b & b' & H).
    destruct (int_of_text U (group 2 m)); [|discriminate].
    destruct (int_of_text U (group 3 m)); [|discriminate]. discriminate.
  - intros H. exists [].
    destruct (int_of_text U (group 2 m)); [|congruence].
    destruct (int_of_text U (group 3 m)); [|congruence]. eauto.
Qed.

(** X15: [_process_txt_bible] returns a corpus exactly when [int()] accepts
    the chapter digits and the verse digits of every match of the scan;
    otherwise it raises, with nothing returned for the other verses.
    ([int()] refuses a run of more than 4300 digits.) *)
Theorem txt_bible_returns_iff_numbers : forall (U : Unicode) (content : text),
  (exists bible_data, _process_txt_bible U content = Ok bible_data) <->
  Forall (fun m => match_key U m <> None)
         (finditer (re_book_chapter_verse U) content).
Proof.
  intros U content. unfold _process_txt_bible. rewrite Forall_forall. split.
  - intros [bible_data H] m Hm. apply txt_verse_ok.
    apply (for_each_ok_inv _ _ _ _ H m Hm).
  - intros H. apply for_each_ok. intros m Hm st.
    specialize (H m Hm). unfold txt_verse, match_key, bind in *.
    destruct (int_of_text U (group 2 m)); [|congruence].
    destruct (int_of_text U (group 3 m)); [|congruence]. eauto.
Qed.

(** A verse number of 4301 digits: [int()] raises and no corpus is
    returned. *)
Lemma txt_bible_long_number_raises :
  _process_txt_bible ascii_only
    (txt "John 3:" ++ repeat 49%N 4301 ++ txt " alpha John 3:16 beta")
  = Raise ValueError.
Proof. vm_compute. reflexivity. Qed.
